(** * The template rewriter [scripts/replace-project-name.py]

    A shallow embedding of the script and of the shell script it
    generates, followed by the properties of its specification.

    Conventions of the model.
    - A Python [str] is a [string]: a sequence over the 256-symbol
      alphabet of the standard library.  Every literal the script
      matches on is ASCII; the glyphs of its printed lines appear as
      their UTF-8 bytes.  [lower] changes the ASCII capitals only.
    - A [pathlib.Path] is the list of its parts; [Path('.')] has none.
      The parts are names as a directory lists them, so that the string
      of a path is its parts joined by a slash.
    - The file system is the tree below the template directory, to which
      [main] changes before anything else.  A directory lists its plain
      files and its sub-directories separately, each in the order
      [os.scandir] returns them, which is how [os.walk] hands a directory
      to the loop.  There are no links.
    - A file either decodes as UTF-8 text, and then holds the text that
      [read] returns, or makes [open]/[read] raise; independently,
      writing to it may raise.  Permission bits are left out, so
      [os.chmod] changes nothing in the model.
    - Standard output is the list of the lines printed, one per call of
      [print], and takes every line.  The one place where the script
      catches errors, [replace_in_file], is modelled a second time
      statement by statement, over a console that may refuse a line. *)

From stdpp Require Import gmap strings list.
From Stdlib Require Import Ascii DecimalString.

Set Default Proof Using "Type".
#[local] Set Warnings "-register-all".

(** ** Text primitives of Python's [str] *)

Module Str.

(** [s.startswith(p)] *)
Fixpoint startswith (p s : string) : bool :=
  match p, s with
  | "", _ => true
  | String _ _, "" => false
  | String a p', String b s' => Ascii.eqb a b && startswith p' s'
  end.

(** [p in s]: some suffix of [s] starts with [p]. *)
Fixpoint contains (p s : string) : bool :=
  startswith p s ||
  match s with
  | "" => false
  | String _ s' => contains p s'
  end.

(** [c in s] for a single character. *)
Fixpoint has_char (c : ascii) (s : string) : bool :=
  match s with
  | "" => false
  | String a s' => Ascii.eqb c a || has_char c s'
  end.

(** The scan of [s.replace(old, new)] for a non-empty [old]: left to
    right, a match emits [new] and the scan resumes after the match.
    [skip] counts the characters of the current match still to pass
    over, which keeps the recursion structural. *)
Fixpoint replace_scan (old new : string) (skip : nat) (s : string) : string :=
  match s with
  | "" => ""
  | String c s' =>
      match skip with
      | S k => replace_scan old new k s'
      | O =>
          if startswith old s
          then new +:+ replace_scan old new (String.length old - 1) s'
          else String c (replace_scan old new 0 s')
      end
  end.

(** With an empty [old], Python inserts [new] before every character
    and at the end. *)
Fixpoint intersperse (new s : string) : string :=
  match s with
  | "" => new
  | String c s' => new +:+ String c (intersperse new s')
  end.

(** [s.replace(old, new)] *)
Definition replace (old new s : string) : string :=
  match old with
  | "" => intersperse new s
  | String _ _ => replace_scan old new 0 s
  end.

Definition lower_char (c : ascii) : ascii :=
  let n := nat_of_ascii c in
  if (65 <=? n) && (n <=? 90) then ascii_of_nat (n + 32) else c.

(** [s.lower()] *)
Fixpoint lower (s : string) : string :=
  match s with
  | "" => ""
  | String c s' => String (lower_char c) (lower s')
  end.

(** [s.rfind(c)], [None] standing for -1. *)
Fixpoint rfind (c : ascii) (s : string) : option nat :=
  match s with
  | "" => None
  | String a s' =>
      match rfind c s' with
      | Some i => Some (S i)
      | None => if Ascii.eqb a c then Some 0 else None
      end
  end.

(** [s[i:]] *)
Fixpoint drop (i : nat) (s : string) : string :=
  match i, s with
  | S k, String _ s' => drop k s'
  | _, _ => s
  end.

(** [s[:i]] *)
Fixpoint take (i : nat) (s : string) : string :=
  match i, s with
  | S k, String c s' => String c (take k s')
  | _, _ => ""
  end.

(** [str(n)] for a natural number. *)
Definition of_nat (n : nat) : string := NilEmpty.string_of_uint (Nat.to_uint n).

Definition dq : string := String (ascii_of_nat 34) "".
Definition nl : string := String (ascii_of_nat 10) "".

(** A string between double quotes. *)
Definition quoted (s : string) : string := dq +:+ s +:+ dq.

End Str.

(** ** Paths *)

Abbreviation Path := (list string).

Module Path.

(** [str(path)] *)
Definition str (p : Path) : string :=
  match p with
  | [] => "."
  | _ => String.concat "/" p
  end.

(** [path.name], the final part. *)
Definition name (p : Path) : string := List.last p "".

(** [path.parent] *)
Definition parent (p : Path) : Path := removelast p.

(** The suffix of a file name: from its last dot on, unless that dot
    is the first or the last character. *)
Definition name_suffix (n : string) : string :=
  match Str.rfind "." n with
  | Some i =>
      if (0 <? i) && (i <? String.length n - 1) then Str.drop i n else ""
  | None => ""
  end.

(** [path.suffix] *)
Definition suffix (p : Path) : string := name_suffix (name p).

(** [path.with_suffix(suf)] for a path with a name. *)
Definition with_suffix (p : Path) (suf : string) : Path :=
  let n := name p in
  let old := name_suffix n in
  parent p ++ [Str.take (String.length n - String.length old) n +:+ suf].

End Path.

(** ** The file system *)

Inductive content :=
  | Text (s : string)          (* the bytes decode; [read] returns [s] *)
  | Unreadable (msg : string). (* [open] or [read] raises an error whose text is [msg] *)

(** [wfail = Some (msg, residue)]: writing the file raises an error whose
    text is [msg] and leaves the file holding [residue] (its old content
    when [open] itself fails, a truncated one when the write fails
    half-way). *)
Record file := File { data : content; wfail : option (string * content) }.

Inductive dir :=
  | Dir (files : list (string * file)) (subdirs : list (string * dir)).

Definition writable (s : string) : file := File (Text s) None.

(** Listings as association lists: the first binding of a name counts. *)
Fixpoint assoc {A} (n : string) (l : list (string * A)) : option A :=
  match l with
  | [] => None
  | (k, a) :: l' => if String.eqb n k then Some a else assoc n l'
  end.

(** Rebind [n] where it stands, or add it at the end. *)
Fixpoint assoc_set {A} (n : string) (a : A) (l : list (string * A)) : list (string * A) :=
  match l with
  | [] => [(n, a)]
  | (k, b) :: l' => if String.eqb n k then (k, a) :: l' else (k, b) :: assoc_set n a l'
  end.

(** Drop every binding of [n]. *)
Fixpoint assoc_del {A} (n : string) (l : list (string * A)) : list (string * A) :=
  match l with
  | [] => []
  | (k, b) :: l' => if String.eqb n k then assoc_del n l' else (k, b) :: assoc_del n l'
  end.

(** What a call returns: a value, or a raised [Exception] with its text. *)
Inductive result (A : Type) :=
  | Ok (a : A)
  | Raise (msg : string).
Arguments Ok {A} a.
Arguments Raise {A} msg.

Module Fs.

Definition entry : Type := file + dir.

(** [str(e)] for the [OSError] of a call on the path [p], and of a call
    on two paths: the number and text of the error, then the string of
    each path as [repr] gives it for a name without quotes, backslashes
    or control characters. *)
Definition os_error (errno : nat) (strerror : string) (p : Path) : string :=
  "[Errno " +:+ Str.of_nat errno +:+ "] " +:+ strerror +:+ ": '" +:+ Path.str p +:+ "'".

Definition os_error2 (errno : nat) (strerror : string) (src dst : Path) : string :=
  os_error errno strerror src +:+ " -> '" +:+ Path.str dst +:+ "'".

(** The directory a path of directory names leads to. *)
Fixpoint get_dir (p : Path) (d : dir) : option dir :=
  match p with
  | [] => Some d
  | n :: p' => let 'Dir _ ds := d in
               match assoc n ds with
               | Some sub => get_dir p' sub
               | None => None
               end
  end.

(** Put [new] in the place of the directory at [p], if there is one. *)
Fixpoint set_dir (p : Path) (new : dir) (d : dir) : dir :=
  match p with
  | [] => new
  | n :: p' => let 'Dir fs ds := d in
               match assoc n ds with
               | Some sub => Dir fs (assoc_set n (set_dir p' new sub) ds)
               | None => d
               end
  end.

Definition lookup (p : Path) (d : dir) : option entry :=
  match p with
  | [] => Some (inr d)
  | _ =>
      match get_dir (Path.parent p) d with
      | Some (Dir fs ds) =>
          match assoc (Path.name p) fs with
          | Some f => Some (inl f)
          | None => inr <$> assoc (Path.name p) ds
          end
      | None => None
      end
  end.

(** [path.exists()] *)
Definition exists_ (p : Path) (d : dir) : bool := bool_decide (is_Some (lookup p d)).

(** [open(p, 'w')] followed by [write(s)]: an existing file is
    overwritten, a missing one is created in its directory. *)
Definition write (p : Path) (s : string) (d : dir) : result unit * dir :=
  match p, get_dir (Path.parent p) d with
  | [], _ => (Raise (os_error 21 "Is a directory" p), d)
  | _, None => (Raise (os_error 2 "No such file or directory" p), d)
  | _, Some (Dir fs ds) =>
      let n := Path.name p in
      match assoc n ds, assoc n fs with
      | Some _, _ => (Raise (os_error 21 "Is a directory" p), d)
      | None, Some f =>
          match wfail f with
          | Some (msg, residue) =>
              (Raise msg, set_dir (Path.parent p) (Dir (assoc_set n (File residue (wfail f)) fs) ds) d)
          | None =>
              (Ok tt, set_dir (Path.parent p) (Dir (assoc_set n (File (Text s) None) fs) ds) d)
          end
      | None, None =>
          (Ok tt, set_dir (Path.parent p) (Dir (fs ++ [(n, writable s)]) ds) d)
      end
  end.

(** Take the name [p] out of its directory. *)
Definition remove (p : Path) (d : dir) : dir :=
  match get_dir (Path.parent p) d with
  | Some (Dir fs ds) =>
      let n := Path.name p in
      set_dir (Path.parent p) (Dir (assoc_del n fs) (assoc_del n ds)) d
  | None => d
  end.

(** Bind the name [p] to the entry [e] in the directory of [p]. *)
Definition put (p : Path) (e : entry) (d : dir) : option dir :=
  match get_dir (Path.parent p) d with
  | Some (Dir fs ds) =>
      let n := Path.name p in
      Some (set_dir (Path.parent p)
                    (match e with
                     | inl f => Dir (assoc_set n f fs) ds
                     | inr sub => Dir fs (assoc_set n sub ds)
                     end) d)
  | None => None
  end.

(** [src.rename(dst)].  A file may replace a file; the model raises
    for every other existing target (the script only renames onto a
    name it has found free). *)
Definition rename (src dst : Path) (d : dir) : result unit * dir :=
  match src, lookup src d with
  | [], _ => (Raise (os_error2 16 "Device or resource busy" src dst), d)
  | _, None => (Raise (os_error2 2 "No such file or directory" src dst), d)
  | _, Some e =>
      match lookup dst d, e with
      | Some (inr _), _ => (Raise (os_error2 21 "Is a directory" src dst), d)
      | Some (inl _), inr _ => (Raise (os_error2 20 "Not a directory" src dst), d)
      | _, _ =>
          match put dst e (remove src d) with
          | Some d' => (Ok tt, d')
          | None => (Raise (os_error2 2 "No such file or directory" src dst), d)
          end
      end
  end.

(** The file a path names, if it names a plain file. *)
Definition file_at (p : Path) (d : dir) : option file :=
  match lookup p d with
  | Some (inl f) => Some f
  | _ => None
  end.

End Fs.

(** ** Running the script: a state and error monad over the world *)

Record world := World { fs : dir; out : list string }.

Definition M (A : Type) : Type := world → result A * world.

Definition ret {A} (a : A) : M A := λ w, (Ok a, w).

(** Sequencing; a raised error passes through the rest of the block. *)
Definition bind {A B} (c : M A) (k : A → M B) : M B :=
  λ w, match c w with
       | (Ok a, w') => k a w'
       | (Raise msg, w') => (Raise msg, w')
       end.

Notation "'do' x <- c ; k" := (bind c (λ x, k))
  (at level 10, x name, c at level 100, k at level 200).
Notation "'run' c ; k" := (bind c (λ _, k))
  (at level 10, c at level 100, k at level 200).

(** [print(line)] *)
Definition print (line : string) : M unit :=
  λ w, (Ok tt, World (fs w) (out w ++ [line])).

(** A file-system call acting on the tree of the world. *)
Definition on_fs {A} (op : dir → result A * dir) : M A :=
  λ w, let '(r, d) := op (fs w) in (r, World d (out w)).

Definition path_exists (p : Path) : M bool :=
  λ w, (Ok (Fs.exists_ p (fs w)), w).

(** ** The script *)

Definition SKIP_PATTERNS : list string :=
  ["node_modules"; ".git"; ".next"; "dist"; "build"; "*.original";
   "replace-project-name.py"].

(** The loop of [should_skip] over a list of patterns.  The second
    component counts the [in] tests the loop performs before it
    returns. *)
Fixpoint skip_loop (patterns : list string) (path_str : string) : bool * nat :=
  match patterns with
  | [] => (false, 0)
  | pattern :: rest =>
      if Str.contains pattern path_str then (true, 1)
      else let '(b, n) := skip_loop rest path_str in (b, S n)
  end.

Definition should_skip (path : Path) : bool :=
  (skip_loop SKIP_PATTERNS (Path.str path)).1.

(** The loop of [replace_in_file] over [replacements.items()], a
    dictionary in insertion order. *)
Definition substitute (replacements : list (string * string)) (content : string) : string :=
  fold_left (λ content '(old, new), Str.replace old new content) replacements content.

Definition updated_line (file_path : Path) : string :=
  "  ✓ Updated: " +:+ Path.str file_path.

Definition error_line (file_path : Path) (e : string) : string :=
  "  ✗ Error updating " +:+ Path.str file_path +:+ ": " +:+ e.

(** What one call of [replace_in_file] does to the file its path names:
    the file afterwards, the lines printed, the value returned. *)
Record visited := Visited { v_file : file; v_out : list string; v_updated : bool }.

Definition untouched (f : file) : visited := Visited f [] false.

Definition replace_in_file (file_path : Path) (replacements : list (string * string))
    (f : file) : visited :=
  match data f with
  | Unreadable e => Visited f [error_line file_path e] false
  | Text content =>
      let original_content := content in
      let content := substitute replacements content in
      if bool_decide (content ≠ original_content) then
        match wfail f with
        | None => Visited (File (Text content) None) [updated_line file_path] true
        | Some (e, residue) =>
            Visited (File residue (wfail f)) [error_line file_path e] false
        end
      else untouched f
  end.

(** *** The statements of [replace_in_file]

    The function once more, statement by statement, over the file its
    path names and a console: [open] and [read], [write] and [print]
    raise, [try] with [except Exception] catches, and the function ends
    with [return False] unless the body has returned. *)

Module Io.

Record state := State { opened : file; printed : list string }.

Definition IO (A : Type) : Type := state → result A * state.

Definition ret {A} (a : A) : IO A := λ s, (Ok a, s).

Definition bind {A B} (c : IO A) (k : A → IO B) : IO B :=
  λ s, match c s with
       | (Ok a, s') => k a s'
       | (Raise e, s') => (Raise e, s')
       end.

(** [try: body except Exception as e: handler] *)
Definition try_except {A} (body : IO A) (handler : string → IO A) : IO A :=
  λ s, match body s with
       | (Ok a, s') => (Ok a, s')
       | (Raise e, s') => handler e s'
       end.

(** [with open(file_path, 'r', encoding='utf-8') as f: f.read()] *)
Definition read : IO string :=
  λ s, match data (opened s) with
       | Text content => (Ok content, s)
       | Unreadable e => (Raise e, s)
       end.

(** [with open(file_path, 'w', encoding='utf-8') as f: f.write(content)] *)
Definition write (content : string) : IO unit :=
  λ s, match wfail (opened s) with
       | None => (Ok tt, State (File (Text content) None) (printed s))
       | Some (e, residue) =>
           (Raise e, State (File residue (wfail (opened s))) (printed s))
       end.

Section Console.

(** The error [print] raises on a line, when the console refuses it. *)
Variable console : string → option string.

Definition print (line : string) : IO unit :=
  λ s, match console line with
       | None => (Ok tt, State (opened s) (printed s ++ [line]))
       | Some e => (Raise e, s)
       end.

(** The body of [try] gives [Some b] when it ends in [return b], and
    [None] when it runs to its end. *)
Definition replace_in_file (file_path : Path) (replacements : list (string * string)) :
    IO bool :=
  bind
    (try_except
       (bind read (λ content,
          let original_content := content in
          let content := substitute replacements content in
          if bool_decide (content ≠ original_content) then
            bind (write content) (λ _,
            bind (print (updated_line file_path)) (λ _,
            ret (Some true)))
          else ret None))
       (λ e, bind (print (error_line file_path e)) (λ _, ret None)))
    (λ returned,
       match returned with
       | Some b => ret b
       | None => ret false
       end).

End Console.

End Io.

Definition env_template : string :=
"# Project Configuration
PROJECT_NAME=your-project-name
APP_BASE_PATH=/your-project-name

# Database
DATABASE_URL=

# AWS S3 Configuration (if using S3 storage)
AWS_REGION=
AWS_ACCESS_KEY_ID=
AWS_SECRET_ACCESS_KEY=
S3_BUCKET_NAME=
S3_FOLDER_PREFIX=${PROJECT_NAME}/

# Authentication
NEXTAUTH_URL=https://your-domain.com/${PROJECT_NAME}
NEXTAUTH_SECRET=

# Azure AD (if using Azure authentication)
AZURE_AD_CLIENT_ID=
AZURE_AD_CLIENT_SECRET=
AZURE_AD_TENANT_ID=

# Google OAuth (if using Google authentication)
GOOGLE_CLIENT_ID=
GOOGLE_CLIENT_SECRET=

# Storage Configuration
STORAGE_PROVIDER=local
LOCAL_UPLOAD_DIR=./uploads

# Other Configuration
NODE_ENV=production
PORT=3000
".

Definition config_content : string :=
"export const config = {
  auth: {
    providers: {
      google: {
        clientId: process.env.GOOGLE_CLIENT_ID || '',
        clientSecret: process.env.GOOGLE_CLIENT_SECRET || '',
      },
      azure: {
        clientId: process.env.AZURE_AD_CLIENT_ID || '',
        clientSecret: process.env.AZURE_AD_CLIENT_SECRET || '',
        tenantId: process.env.AZURE_AD_TENANT_ID || '',
      }
    }
  },
  app: {
    name: process.env.PROJECT_NAME || 'vvg-app',
    basePath: process.env.APP_BASE_PATH || `/${process.env.PROJECT_NAME || 'vvg-app'}`,
  },
  storage: {
    provider: process.env.STORAGE_PROVIDER as 'local' | 's3' || 'local',
    local: {
      uploadDir: process.env.LOCAL_UPLOAD_DIR || './uploads',
    },
    s3: {
      bucket: process.env.S3_BUCKET_NAME || '',
      region: process.env.AWS_REGION || 'us-east-1',
      accessKeyId: process.env.AWS_ACCESS_KEY_ID || '',
      secretAccessKey: process.env.AWS_SECRET_ACCESS_KEY || '',
      folderPrefix: process.env.S3_FOLDER_PREFIX || `${process.env.PROJECT_NAME || 'vvg-app'}/`,
    }
  },
  database: {
    url: process.env.DATABASE_URL || '',
  }
};
".

Definition setup_content : string := String.concat Str.dq [
"#!/bin/bash

# Setup script for new projects using this template

echo ";
"VVG Template Setup";
"
echo ";
"==================";
"

# Get project name from user
read -p ";
"Enter your project name (lowercase, no spaces): ";
" PROJECT_NAME

# Validate project name
if [[ ! ";
"$PROJECT_NAME";
" =~ ^[a-z0-9-]+$ ]]; then
    echo ";
"Error: Project name must be lowercase letters, numbers, and hyphens only";
"
    exit 1
fi

echo ";
"Setting up project: $PROJECT_NAME";
"

# Copy .env.template to .env
cp .env.template .env

# Update .env with project name
if [[ ";
"$OSTYPE";
" == ";
"darwin";
"* ]]; then
    # macOS
    sed -i '' ";
"s|PROJECT_NAME=your-project-name|PROJECT_NAME=$PROJECT_NAME|g";
" .env
    sed -i '' ";
"s|APP_BASE_PATH=/your-project-name|APP_BASE_PATH=/$PROJECT_NAME|g";
" .env
else
    # Linux
    sed -i ";
"s|PROJECT_NAME=your-project-name|PROJECT_NAME=$PROJECT_NAME|g";
" .env
    sed -i ";
"s|APP_BASE_PATH=/your-project-name|APP_BASE_PATH=/$PROJECT_NAME|g";
" .env
fi

# Update package.json name
if [[ ";
"$OSTYPE";
" == ";
"darwin";
"* ]]; then
    sed -i '' ";
"s|\";
"name\";
": \";
"[^";
"]*\";
"|";
"name";
": \";
"$PROJECT_NAME\";
"|g";
" package.json
else
    sed -i ";
"s|\";
"name\";
": \";
"[^";
"]*\";
"|";
"name";
": \";
"$PROJECT_NAME\";
"|g";
" package.json
fi

echo ";
"";
"
echo ";
"Setup complete! Next steps:";
"
echo ";
"1. Update the remaining values in .env";
"
echo ";
"2. Run 'npm install' to install dependencies";
"
echo ";
"3. Run 'npm run dev' to start development";
"
echo ";
"";
"
echo ";
"For production deployment:";
"
echo ";
"- Update nginx configs with your domain";
"
echo ";
"- Update deployment configs with your server details";
"
echo ";
"- See DEPLOYMENT.md for full instructions";
"
"].

Definition create_env_template : M unit :=
  run on_fs (Fs.write [".env.template"] env_template);
  print "✓ Created .env.template".

Definition config_path : Path := ["lib"; "config.ts"].

Definition update_config_ts : M unit :=
  do present <- path_exists config_path;
  if present then
    let backup_path := Path.with_suffix config_path ".ts.original" in
    do saved <- path_exists backup_path;
    if negb saved then
      run on_fs (Fs.rename config_path backup_path);
      run on_fs (Fs.write config_path config_content);
      print "✓ Updated lib/config.ts"
    else ret tt
  else ret tt.

Definition create_setup_script : M unit :=
  run on_fs (Fs.write ["setup-project.sh"] setup_content);
  print "✓ Created setup-project.sh".

Definition replacements : list (string * string) :=
  [ ("nda-analyzer", "${PROJECT_NAME}");
    ("/nda-analyzer", "/${PROJECT_NAME}");
    ("nda-analyzer/", "${PROJECT_NAME}/");
    ("'nda-analyzer'", "'${PROJECT_NAME}'");
    (Str.quoted "nda-analyzer", Str.quoted "${PROJECT_NAME}");
    ("NDA Analyzer", "${PROJECT_DISPLAY_NAME}");
    ("nda_analyzer", "${PROJECT_NAME_UNDERSCORE}") ].

Definition json_replacements : list (string * string) :=
  [ (Str.quoted "nda-analyzer", Str.quoted "vvg-template") ].

Definition md_replacements : list (string * string) :=
  [ ("nda-analyzer", "{PROJECT_NAME}");
    ("NDA Analyzer", "{PROJECT_DISPLAY_NAME}") ].

Definition file_handlers : gmap string (list (string * string)) :=
  list_to_map
    [ (".ts", replacements); (".tsx", replacements); (".js", replacements);
      (".jsx", replacements); (".json", json_replacements);
      (".yml", replacements); (".yaml", replacements); (".sh", replacements);
      (".md", md_replacements); (".conf", replacements) ].

(** The names the walk removes from [dirs] before it descends. *)
Definition pruned_dirs : list string :=
  ["node_modules"; ".git"; ".next"; "dist"; "build"].

(** [d in [...]] for a directory name. *)
Definition pruned (d : string) : bool := bool_decide (d ∈ pruned_dirs).

(** The body of the loop over [files] for the file named [fname] in the
    directory [root]. *)
Definition visit (root : Path) (fname : string) (f : file) : visited :=
  let file_path := root ++ [fname] in
  if should_skip file_path then untouched f
  else
    let ext := Str.lower (Path.suffix file_path) in
    match file_handlers !! ext with
    | Some handler => replace_in_file file_path handler f
    | None => untouched f
    end.

(** The outcome of the walk below a directory: the tree afterwards, the
    lines printed, the number of files counted as updated, and the
    paths the loop over [files] was entered with. *)
Record walked := Walked
  { w_tree : dir; w_out : list string; w_count : nat; w_seen : list Path }.

Definition unvisited (d : dir) : walked := Walked d [] 0 [].

(** [os.walk] from the directory [d] reached as [root], top down: the
    files of a directory first, then each sub-directory that survives
    the pruning, in listing order.  The loop body rewrites files and
    never changes what a directory lists, so the walk may read every
    listing from the tree it starts with. *)
Fixpoint walk (root : Path) (d : dir) : walked :=
  let 'Dir files dirs := d in
  let vs := map (λ nf : string * file, (nf.1, visit root nf.1 nf.2)) files in
  let ws := map (λ nd : string * dir,
                   (nd.1, if pruned nd.1 then unvisited nd.2
                          else walk (root ++ [nd.1]) nd.2)) dirs in
  Walked
    (Dir (map (λ nv : string * visited, (nv.1, v_file nv.2)) vs)
         (map (λ nw : string * walked, (nw.1, w_tree nw.2)) ws))
    (concat (map (λ nv : string * visited, v_out nv.2) vs)
       ++ concat (map (λ nw : string * walked, w_out nw.2) ws))
    (length (filter (λ nv : string * visited, v_updated nv.2 = true) vs)
       + sum_list (map (λ nw : string * walked, w_count nw.2) ws))
    (map (λ nf : string * file, root ++ [nf.1]) files
       ++ concat (map (λ nw : string * walked, w_seen nw.2) ws)).

Definition process_files : M nat :=
  λ w, let r := walk [] (fs w) in
       (Ok (w_count r), World (w_tree r) (out w ++ w_out r)).

(** [main], returning the final value of [updated_count]. *)
Definition main : M nat :=
  run print "Making VVG template generic...";
  run print "==============================";
  run create_env_template;
  run update_config_ts;
  run print (Str.nl +:+ "Processing files...");
  do updated_count <- process_files;
  run create_setup_script;
  run print (Str.nl +:+ "✅ Template conversion complete!");
  run print ("   Updated " +:+ Str.of_nat updated_count +:+ " files");
  run print (Str.nl +:+ "The template is now generic and can be used for any project.");
  run print "Users should run './setup-project.sh' to configure it for their specific project.";
  ret updated_count.

(** ** The generated shell script [setup-project.sh]

    The script [setup_content] read as a program.  Its argument is the
    value [read] leaves in [PROJECT_NAME]; the result is the tree
    afterwards, the lines echoed and the exit status.  The two branches
    on [OSTYPE] differ in the spelling of [sed -i] only and are one in
    the model. *)

Module Setup.

(** One character of the bracket expression [a-z0-9-]. *)
Definition name_char (c : ascii) : bool :=
  let n := nat_of_ascii c in
  ((97 <=? n) && (n <=? 122)) || ((48 <=? n) && (n <=? 57)) || (n =? 45).

Fixpoint all_name_chars (s : string) : bool :=
  match s with
  | "" => true
  | String c s' => name_char c && all_name_chars s'
  end.

(** The test of the name against [^[a-z0-9-]+$]. *)
Definition valid_name (s : string) : bool :=
  match s with
  | "" => false
  | String _ _ => all_name_chars s
  end.

Record outcome := Outcome { tree : dir; echoed : list string; status : nat }.

(** [cp src dst]: copies a readable file, into [dst] when that is a
    directory; otherwise [cp] fails and the script goes on. *)
Definition cp (src dst : Path) (d : dir) : dir :=
  match Fs.file_at src d with
  | Some (File (Text s) _) =>
      match Fs.lookup dst d with
      | Some (inr _) => (Fs.write (dst ++ [Path.name src]) s d).2
      | _ => (Fs.write dst s d).2
      end
  | _ => d
  end.

(** [sed -i s|old|new|g path] for a pattern and a replacement without
    special characters: every occurrence is replaced. *)
Definition sed_i (old new : string) (path : Path) (d : dir) : dir :=
  match Fs.file_at path d with
  | Some (File (Text s) _) => (Fs.write path (Str.replace old new s) d).2
  | _ => d
  end.

Section Script.

(** The last file action of the script, its [sed] command on
    package.json, given the project name. *)
Variable rewrite_manifest : string → dir → dir.

Definition setup_project (PROJECT_NAME : string) (d : dir) : outcome :=
  let banner := ["VVG Template Setup"; "=================="] in
  if negb (valid_name PROJECT_NAME) then
    Outcome d
      (banner ++ ["Error: Project name must be lowercase letters, numbers, and hyphens only"])
      1
  else
    let d1 := cp [".env.template"] [".env"] d in
    let d2 := sed_i "PROJECT_NAME=your-project-name"
                    ("PROJECT_NAME=" +:+ PROJECT_NAME) [".env"] d1 in
    let d3 := sed_i "APP_BASE_PATH=/your-project-name"
                    ("APP_BASE_PATH=/" +:+ PROJECT_NAME) [".env"] d2 in
    let d4 := rewrite_manifest PROJECT_NAME d3 in
    Outcome d4
      (banner ++ ["Setting up project: " +:+ PROJECT_NAME; "";
                  "Setup complete! Next steps:";
                  "1. Update the remaining values in .env";
                  "2. Run 'npm install' to install dependencies";
                  "3. Run 'npm run dev' to start development";
                  "";
                  "For production deployment:";
                  "- Update nginx configs with your domain";
                  "- Update deployment configs with your server details";
                  "- See DEPLOYMENT.md for full instructions"])
      0.

End Script.

End Setup.

(** ** Notions used to state the properties *)

(** [p] occurs in [s]: [s] is some text, then [p], then some text. *)
Definition occurs_in (p s : string) : Prop := ∃ a b, s = a +:+ p +:+ b.

(** Every plain file of a tree with its path from the root of the tree,
    in the order of the walk. *)
Fixpoint files_of (d : dir) : list (Path * file) :=
  let 'Dir files dirs := d in
  map (λ nf : string * file, ([nf.1], nf.2)) files
    ++ concat (map (λ nd : string * dir,
                      map (λ pf : Path * file, (nd.1 :: pf.1, pf.2)) (files_of nd.2))
                   dirs).

(** Some directory on the way to the file [p] bears a pruned name. *)
Definition under_pruned (p : Path) : bool :=
  existsb pruned (Path.parent p).

(** The files of a tree that lie under no pruned directory. *)
Definition reached (d : dir) : list (Path * file) :=
  filter (λ pf : Path * file, under_pruned pf.1 = false) (files_of d).

(** The loop body applied to a file given by its path. *)
Definition visit_path (p : Path) (f : file) : visited :=
  visit (Path.parent p) (Path.name p) f.

(** The calls of the loop body during the walk of a tree, in order:
    each reached file with what the body does to it. *)
Definition visits (d : dir) : list (Path * visited) :=
  map (λ pf : Path * file, (pf.1, visit_path pf.1 pf.2)) (reached d).

(** The keys of a substitution map. *)
Definition keys (replacements : list (string * string)) : list string :=
  map fst replacements.

(** The three entries of [replacements] whose keys do not contain
    another key. *)
Definition core_replacements : list (string * string) :=
  [ ("nda-analyzer", "${PROJECT_NAME}");
    ("NDA Analyzer", "${PROJECT_DISPLAY_NAME}");
    ("nda_analyzer", "${PROJECT_NAME_UNDERSCORE}") ].

(** The files listed in the directory at a path. *)
Definition files_at (p : Path) (d : dir) : option (list (string * file)) :=
  (λ x, let 'Dir fs _ := x in fs) <$> Fs.get_dir p d.

(** What the frame properties ask of a file: its extension has no
    entry in the dispatch table, or it has one and no key of that entry
    occurs in the text of the file. *)
Definition nothing_to_replace (p : Path) (f : file) : Prop :=
  file_handlers !! Str.lower (Path.suffix p) = None
  ∨ ∃ handler content,
      file_handlers !! Str.lower (Path.suffix p) = Some handler
      ∧ data f = Text content
      ∧ ∀ old, old ∈ keys handler → ¬ occurs_in old content.

(** The path names one of the files the generators write, or lies
    below such a name. *)
Definition generated (p : Path) : Prop :=
  [".env.template"] `prefix_of` p ∨ ["setup-project.sh"] `prefix_of` p
  ∨ ["lib"; "config.ts"] `prefix_of` p ∨ ["lib"; "config.ts.original"] `prefix_of` p.

(** The frame property read of a whole run from the tree [d]: every
    file with nothing to replace is the same after the run. *)
Definition run_frame_claim (d : dir) : Prop :=
  ∀ p f,
    Fs.file_at p d = Some f → nothing_to_replace p f →
    Fs.file_at p (fs (main (World d [])).2) = Some f.

(** The path of the backup of the configuration module. *)
Definition backup_path : Path := ["lib"; "config.ts.original"].

(** The files a run from the tree [d] replaces whatever they hold: the
    environment template, the setup script and, when the tree has no
    backup of it, the configuration module or, were it a directory, what
    lies below it. *)
Definition overwritten (d : dir) (p : Path) : Prop :=
  p = [".env.template"] ∨ p = ["setup-project.sh"]
  ∨ (config_path `prefix_of` p ∧ Fs.lookup backup_path d = None).

(** A command leaves alone whatever plain file the path [p] names. *)
Definition keeps {A} (p : Path) (c : M A) : Prop :=
  ∀ w, Fs.file_at p (fs (c w).2) = Fs.file_at p (fs w).

(** A command leaves the file [f] at the path [p] when it finds it there. *)
Definition keeps_file {A} (p : Path) (f : file) (c : M A) : Prop :=
  ∀ w, Fs.file_at p (fs w) = Some f → Fs.file_at p (fs (c w).2) = Some f.

(** Running a command of the script again and again. *)
Fixpoint repeat_run (c : M unit) (n : nat) (w : world) : world :=
  match n with
  | O => w
  | S k => repeat_run c k (c w).2
  end.

(** A line of the form the script prints for an updated file. *)
Definition is_updated_line (line : string) : Prop :=
  Str.startswith "  ✓ Updated: " line = true.

#[global] Instance is_updated_line_dec line : Decision (is_updated_line line) :=
  decide (Str.startswith "  ✓ Updated: " line = true).

(** What a call of the loop body reports agrees with what it returns:
    it prints nothing or one line of error and returns false, or prints
    one line for the updated file and returns true. *)
Definition well_reported (v : visited) : Prop :=
  (v_updated v = false ∧ (v_out v = [] ∨ ∃ q e, v_out v = [error_line q e]))
  ∨ (v_updated v = true ∧ ∃ q, v_out v = [updated_line q]).

(** * Properties *)

(** ** The primitives on examples *)

Example replace_examples :
  Str.replace "ab" "X" "aabbabab" = "aXbXX"
  ∧ Str.replace "aa" "b" "aaaaa" = "bba"
  ∧ Str.replace "" "-" "abc" = "-a-b-c-"
  ∧ Str.replace "x" "y" "" = ""
  ∧ Str.contains "" "" = true
  ∧ Str.contains "bc" "abcd" = true
  ∧ Str.contains "bd" "abcd" = false
  ∧ Str.lower "App.TSX" = "app.tsx".
Proof. by vm_compute. Qed.

Example path_examples :
  Path.str ["lib"; "config.ts"] = "lib/config.ts"
  ∧ Path.str [] = "."
  ∧ Path.suffix ["lib"; "config.ts.original"] = ".original"
  ∧ Path.suffix [".gitignore"] = ""
  ∧ Path.suffix ["notes."] = ""
  ∧ Path.suffix ["Makefile"] = ""
  ∧ Path.with_suffix ["lib"; "config.ts"] ".ts.original" = ["lib"; "config.ts.original"].
Proof. by vm_compute. Qed.

(** ** Text *)

Section StrFacts.

Implicit Types (s t u p old new : string) (c : ascii).

Lemma str_app_nil_r s : s +:+ "" = s.
Proof. induction s as [|c s IH]; [done|]. by rewrite <- IH at 2. Qed.

Lemma str_app_assoc s t u : (s +:+ t) +:+ u = s +:+ (t +:+ u).
Proof.
  induction s as [|c s IH]; [done|].
  change (String c ((s +:+ t) +:+ u) = String c (s +:+ (t +:+ u))).
  by rewrite IH.
Qed.

Lemma str_app_cons c s t : String c s +:+ t = String c (s +:+ t).
Proof. done. Qed.

Lemma str_app_snoc s c t : (s +:+ String c "") +:+ t = s +:+ String c t.
Proof. by rewrite str_app_assoc. Qed.

Lemma str_length_app s t : String.length (s +:+ t) = String.length s + String.length t.
Proof. induction s as [|c s IH]; [done|]. rewrite str_app_cons. simpl. by rewrite IH. Qed.

Lemma str_drop_app s t : Str.drop (String.length s) (s +:+ t) = t.
Proof. induction s as [|c s IH]; [by destruct t|]. by rewrite str_app_cons. Qed.

Lemma eqb_char_true a b : Ascii.eqb a b = true ↔ a = b.
Proof. apply Ascii.eqb_eq. Qed.

Lemma startswith_spec p s : Str.startswith p s = true ↔ ∃ t, s = p +:+ t.
Proof.
  revert s. induction p as [|a p IH]; intros s.
  - split; [by exists s|]. by destruct s.
  - destruct s as [|b s]; simpl.
    + split; [done|]. by intros [t ?].
    + rewrite andb_true_iff, eqb_char_true, IH. split.
      * intros [-> [t ->]]. by exists t.
      * intros [t Ht]. rewrite str_app_cons in Ht. simplify_eq. eauto.
Qed.

Lemma startswith_app p t : Str.startswith p (p +:+ t) = true.
Proof. apply startswith_spec. by exists t. Qed.

Lemma contains_unfold p s :
  Str.contains p s =
    Str.startswith p s || match s with "" => false | String _ s' => Str.contains p s' end.
Proof. by destruct s. Qed.

(** [in] is the substring test. *)
Lemma contains_spec p s : Str.contains p s = true ↔ occurs_in p s.
Proof.
  unfold occurs_in. induction s as [|c s IH]; rewrite contains_unfold.
  - rewrite orb_false_r, startswith_spec. split.
    + intros [t ->]. by exists "", t.
    + intros [[|a x] [b H]]; [by exists b|]. by rewrite str_app_cons in H.
  - rewrite orb_true_iff, startswith_spec, IH. split.
    + intros [[t ->]|(a & b & ->)]; [by exists "", t|].
      by exists (String c a), b.
    + intros [[|x a] [b H]]; [left; by exists b|right].
      rewrite str_app_cons in H. simplify_eq. by exists a, b.
Qed.

Lemma contains_false p s : Str.contains p s = false ↔ ¬ occurs_in p s.
Proof. rewrite <- contains_spec. by destruct (Str.contains p s). Qed.

Lemma occurs_in_trans p q s : occurs_in p q → occurs_in q s → occurs_in p s.
Proof.
  intros (a & b & ->) (a' & b' & ->). exists (a' +:+ a), (b +:+ b').
  by rewrite !str_app_assoc.
Qed.

Lemma has_char_app c s t : Str.has_char c (s +:+ t) = Str.has_char c s || Str.has_char c t.
Proof.
  induction s as [|a s IH]; [done|]. rewrite str_app_cons. simpl.
  by rewrite IH, orb_assoc.
Qed.

(** A text that starts with [p] after a prefix [u] ending in a
    character foreign to [p] has [p] inside [u] already. *)
Lemma startswith_before_foreign p u c t :
  Str.has_char c p = false →
  Str.startswith p (u +:+ String c t) = true → Str.startswith p u = true.
Proof.
  revert u. induction p as [|a p IH]; intros u Hc; [done|].
  simpl in Hc. apply orb_false_iff in Hc as [Hca Hcp].
  destruct u as [|b u]; simpl.
  - rewrite andb_true_iff, eqb_char_true. intros [-> _].
    by rewrite Ascii.eqb_refl in Hca.
  - rewrite !andb_true_iff. intros [? ?]. eauto.
Qed.

(** ** [replace] *)

Lemma replace_scan_skip old new k s :
  Str.replace_scan old new k s = Str.replace_scan old new 0 (Str.drop k s).
Proof.
  revert k. induction s as [|c s IH]; intros [|k]; try done.
  simpl. apply IH.
Qed.

Lemma replace_nil a old new : Str.replace (String a old) new "" = "".
Proof. done. Qed.

(** At a match, [new] is emitted and the scan resumes after it. *)
Lemma replace_match a old new t :
  Str.replace (String a old) new (String a old +:+ t)
  = new +:+ Str.replace (String a old) new t.
Proof.
  unfold Str.replace. rewrite str_app_cons.
  cbn [Str.replace_scan]. rewrite <- str_app_cons, startswith_app.
  rewrite replace_scan_skip. cbn [String.length]. rewrite Nat.sub_1_r. simpl Nat.pred.
  by rewrite str_drop_app.
Qed.

(** Elsewhere the character is kept. *)
Lemma replace_keep a old new c s :
  Str.startswith (String a old) (String c s) = false →
  Str.replace (String a old) new (String c s)
  = String c (Str.replace (String a old) new s).
Proof. intros H. unfold Str.replace. cbn [Str.replace_scan]. by rewrite H. Qed.

(** Induction along the scan of [replace] for a non-empty key. *)
Lemma replace_ind a old new (P : string → string → Prop) :
  P "" "" →
  (∀ t r, P t r → P (String a old +:+ t) (new +:+ r)) →
  (∀ c s r, Str.startswith (String a old) (String c s) = false →
            P s r → P (String c s) (String c r)) →
  ∀ s, P s (Str.replace (String a old) new s).
Proof.
  intros Hnil Hmatch Hkeep s.
  remember (String.length s) as n eqn:Hn. revert s Hn.
  induction n as [n IH] using lt_wf_ind. intros [|c s] Hn; [done|].
  destruct (Str.startswith (String a old) (String c s)) eqn:Hs.
  - apply startswith_spec in Hs as [t Ht]. rewrite Ht, replace_match.
    apply Hmatch, (IH (String.length t)); [|done].
    rewrite Hn, Ht, str_length_app. simpl. lia.
  - rewrite replace_keep by done.
    apply Hkeep; [done|]. apply (IH (String.length s)); [|done].
    rewrite Hn. simpl. lia.
Qed.

(** A key that does not occur leaves the text as it is. *)
Lemma replace_absent old new s :
  Str.contains old s = false → Str.replace old new s = s.
Proof.
  destruct old as [|a old]; [by destruct s|].
  induction s as [|c s IH]; [done|].
  rewrite contains_unfold, orb_false_iff. intros [H1 H2].
  rewrite replace_keep by done. by rewrite IH.
Qed.

Lemma startswith_mono p u t :
  Str.startswith p u = true → Str.startswith p (u +:+ t) = true.
Proof.
  rewrite !startswith_spec. intros [x ->]. exists (x +:+ t). apply str_app_assoc.
Qed.

(** Past a text without the first character of the key, the search
    starts afresh. *)
Lemma contains_after_foreign a p new r :
  Str.has_char a new = false →
  Str.contains (String a p) (new +:+ r) = Str.contains (String a p) r.
Proof.
  induction new as [|n new IH]; [done|]. cbn [Str.has_char].
  intros [Hn Hnew]%orb_false_iff. rewrite str_app_cons, contains_unfold.
  cbn [Str.startswith]. by rewrite Hn, IH.
Qed.

(** The replacement text brings in no new match and joins none up,
    when it is not empty and shares no character with the key: the
    replaced text holds no occurrence of the key. *)
Lemma replace_removes a old n new s :
  Str.has_char a (String n new) = false →
  Str.has_char n (String a old) = false →
  Str.contains (String a old) (Str.replace (String a old) (String n new) s) = false.
Proof.
  intros Ha Hn.
  enough (H : (∀ u, Str.startswith (String a old)
                      (u +:+ Str.replace (String a old) (String n new) s) = true →
                    Str.startswith (String a old) (u +:+ s) = true) ∧
              Str.contains (String a old)
                (Str.replace (String a old) (String n new) s) = false) by apply H.
  apply (replace_ind a old (String n new)
           (λ s r, (∀ u, Str.startswith (String a old) (u +:+ r) = true →
                         Str.startswith (String a old) (u +:+ s) = true) ∧
                   Str.contains (String a old) r = false)).
  - done.
  - intros t r [_ Hr]. split.
    + intros u Hu. apply startswith_mono.
      rewrite str_app_cons in Hu. by eapply startswith_before_foreign.
    + by rewrite contains_after_foreign.
  - intros c t r Hc [Hpre Hr]. split.
    + intros u Hu. rewrite <- str_app_snoc in Hu. apply Hpre in Hu.
      by rewrite str_app_snoc in Hu.
    + rewrite contains_unfold, Hr, orb_false_r.
      destruct (Str.startswith (String a old) (String c r)) eqn:E; [|done].
      apply (Hpre (String c "")) in E.
      change (Str.startswith (String a old) (String c t) = true) in E. congruence.
Qed.

(** A character foreign to the key splits the text into two parts
    that are replaced independently. *)
Lemma replace_split a old new c x y :
  Str.has_char c (String a old) = false →
  Str.replace (String a old) new (x +:+ String c y)
  = Str.replace (String a old) new x +:+ String c (Str.replace (String a old) new y).
Proof.
  intros Hc.
  apply (replace_ind a old new
           (λ x r, Str.replace (String a old) new (x +:+ String c y)
                   = r +:+ String c (Str.replace (String a old) new y))).
  - apply replace_keep. simpl in *. apply orb_false_iff in Hc as [Hc _].
    by rewrite Ascii.eqb_sym, Hc.
  - intros t r IH. by rewrite str_app_assoc, replace_match, IH, str_app_assoc.
  - intros b t r Hb IH. rewrite str_app_cons, replace_keep, IH; [done|].
    destruct (Str.startswith (String a old) (String b (t +:+ String c y))) eqn:E; [|done].
    rewrite <- str_app_cons in E. apply startswith_before_foreign in E; [|done].
    by rewrite E in Hb.
Qed.

(** ** [substitute] *)

Lemma substitute_cons old new m s :
  substitute ((old, new) :: m) s = substitute m (Str.replace old new s).
Proof. done. Qed.

Lemma substitute_app m1 m2 s :
  substitute (m1 ++ m2) s = substitute m2 (substitute m1 s).
Proof. apply fold_left_app. Qed.

Lemma substitute_absent m s :
  (∀ k, k ∈ keys m → Str.contains k s = false) → substitute m s = s.
Proof.
  induction m as [|[old new] m IH]; intros H; [done|].
  rewrite substitute_cons, replace_absent.
  - apply IH. intros k Hk. apply H. by right.
  - apply H. by left.
Qed.

End StrFacts.

(** ** The substitution maps of the script *)

Section Maps.

Implicit Types (s : string).

Local Abbreviation K1 := "nda-analyzer".
Local Abbreviation V1 := "${PROJECT_NAME}".

(** After the first entry of [replacements] the bare name is gone. *)
Lemma bare_name_removed s : Str.contains K1 (Str.replace K1 V1 s) = false.
Proof. by apply replace_removes. Qed.

(** A key that contains the bare name finds nothing to replace then. *)
Lemma later_key_idle old new s :
  occurs_in K1 old → Str.replace old new (Str.replace K1 V1 s) = Str.replace K1 V1 s.
Proof.
  intros Hold. apply replace_absent, contains_false. intros Hocc.
  pose proof (bare_name_removed s) as H. apply contains_false in H.
  apply H. by eapply occurs_in_trans.
Qed.

Lemma replacements_core s :
  substitute replacements s = substitute core_replacements s.
Proof.
  unfold replacements, core_replacements. rewrite !substitute_cons.
  by do 4 (rewrite later_key_idle by (apply contains_spec; reflexivity)).
Qed.

Lemma replace_foreign a old new c y :
  Str.has_char c (String a old) = false →
  Str.replace (String a old) new (String c y)
  = String c (Str.replace (String a old) new y).
Proof. apply (replace_split a old new c ""). Qed.

Lemma quoted_app v y :
  Str.quoted v +:+ y = String (ascii_of_nat 34) (v +:+ String (ascii_of_nat 34) y).
Proof. unfold Str.quoted. by rewrite !str_app_assoc. Qed.

(** A quoted text without the key, between two texts. *)
Lemma replace_around a old new v x y :
  Str.has_char (ascii_of_nat 34) (String a old) = false →
  Str.contains (String a old) v = false →
  Str.replace (String a old) new (x +:+ Str.quoted v +:+ y)
  = Str.replace (String a old) new x +:+ Str.quoted v
      +:+ Str.replace (String a old) new y.
Proof.
  intros Hq Hv. rewrite !quoted_app.
  rewrite (replace_split _ _ _ _ x) by done.
  rewrite (replace_split _ _ _ _ v) by done.
  by rewrite (replace_absent _ _ v).
Qed.

(** The quoted project name between two texts: the name is replaced
    where it stands and the two texts are rewritten on their own. *)
Lemma substitute_quoted_name x y :
  substitute replacements (x +:+ Str.quoted K1 +:+ y)
  = substitute replacements x +:+ Str.quoted V1 +:+ substitute replacements y.
Proof.
  rewrite !replacements_core. unfold core_replacements. rewrite !substitute_cons.
  cbn [substitute fold_left].
  assert (Str.replace K1 V1 (x +:+ Str.quoted K1 +:+ y)
          = Str.replace K1 V1 x +:+ Str.quoted V1 +:+ Str.replace K1 V1 y) as ->.
  { rewrite !quoted_app.
    rewrite replace_split, replace_match by done.
    by rewrite replace_foreign. }
  by rewrite !replace_around.
Qed.

End Maps.

(** ** The walk *)

Section Walk.

Implicit Types (d : dir) (p root : Path) (f : file) (n : string).

(** Induction on a tree, with the property known of every
    sub-directory. *)
Lemma dir_ind' (P : dir → Prop) :
  (∀ files dirs, Forall (λ nd : string * dir, P nd.2) dirs → P (Dir files dirs)) →
  ∀ d, P d.
Proof.
  intros H. fix IH 1. intros [files dirs]. apply H.
  induction dirs as [|[n sub] dirs IHd]; constructor; [apply IH|apply IHd].
Qed.

Lemma parent_cons n p : p ≠ [] → Path.parent (n :: p) = n :: Path.parent p.
Proof. by destruct p. Qed.

Lemma name_cons n p : p ≠ [] → Path.name (n :: p) = Path.name p.
Proof. by destruct p. Qed.

Lemma parent_snoc p n : Path.parent (p ++ [n]) = p.
Proof. apply removelast_last. Qed.

Lemma name_snoc p n : Path.name (p ++ [n]) = n.
Proof. apply last_last. Qed.

Lemma parent_app root p : p ≠ [] → Path.parent (root ++ p) = root ++ Path.parent p.
Proof. intros. by apply removelast_app. Qed.

Lemma name_app root p : p ≠ [] → Path.name (root ++ p) = Path.name p.
Proof.
  intros Hp. induction root as [|n root IH]; [done|].
  rewrite <- app_comm_cons, name_cons; [done|]. by destruct root, p.
Qed.

Lemma under_pruned_cons n p :
  p ≠ [] → under_pruned (n :: p) = pruned n || under_pruned p.
Proof. intros. unfold under_pruned. by rewrite parent_cons. Qed.

Lemma files_of_nonempty d : Forall (λ pf : Path * file, pf.1 ≠ []) (files_of d).
Proof.
  destruct d as [files dirs]. cbn [files_of]. apply Forall_app. split.
  - by apply Forall_fmap, Forall_true.
  - apply Forall_concat, Forall_fmap, Forall_true. intros nd.
    by apply Forall_fmap, Forall_true.
Qed.

Lemma reached_nonempty d : Forall (λ pf : Path * file, pf.1 ≠ []) (reached d).
Proof.
  apply Forall_forall. intros pf [_ Hpf]%list_elem_of_filter.
  by apply (proj1 (Forall_forall _ _) (files_of_nonempty d)).
Qed.

Lemma filter_under n (l : list (Path * file)) :
  Forall (λ pf : Path * file, pf.1 ≠ []) l →
  filter (λ pf : Path * file, under_pruned pf.1 = false)
         (map (λ pf : Path * file, (n :: pf.1, pf.2)) l)
  = if pruned n then []
    else map (λ pf : Path * file, (n :: pf.1, pf.2))
             (filter (λ pf : Path * file, under_pruned pf.1 = false) l).
Proof.
  induction 1 as [|[p f] l Hp _ IH]; [by destruct (pruned n)|].
  cbn [map]. rewrite !filter_cons, IH. cbn [fst snd] in *.
  rewrite under_pruned_cons by done.
  destruct (pruned n); [done|]. cbn [orb].
  by destruct (decide (under_pruned p = false)).
Qed.

(** The reached files of a directory: its own, then those of each
    sub-directory that is not pruned. *)
Lemma reached_Dir files dirs :
  reached (Dir files dirs)
  = map (λ nf : string * file, ([nf.1], nf.2)) files
      ++ concat (map (λ nd : string * dir,
                        if pruned nd.1 then []
                        else map (λ pf : Path * file, (nd.1 :: pf.1, pf.2)) (reached nd.2))
                     dirs).
Proof.
  unfold reached at 1. cbn [files_of]. rewrite filter_app. f_equal.
  - induction files as [|[n f] files IH]; [done|].
    cbn [map]. by rewrite filter_cons_True, IH.
  - induction dirs as [|[n sub] dirs IH]; [done|].
    cbn [map concat]. rewrite filter_app, IH. f_equal.
    apply filter_under, files_of_nonempty.
Qed.

Lemma visit_path_snoc root n f : visit_path (root ++ [n]) f = visit root n f.
Proof. unfold visit_path. by rewrite parent_snoc, name_snoc. Qed.

Lemma visit_path_cons root n p f :
  visit_path ((root ++ [n]) ++ p) f = visit_path (root ++ n :: p) f.
Proof. by rewrite <- app_assoc. Qed.

(** What the walk sees, prints and counts is what the loop body does
    on the reached files, one after the other. *)
Lemma walk_reached d : ∀ root,
  w_seen (walk root d) = map (λ pf : Path * file, root ++ pf.1) (reached d) ∧
  w_out (walk root d)
    = concat (map (λ pf : Path * file, v_out (visit_path (root ++ pf.1) pf.2))
                  (reached d)) ∧
  w_count (walk root d)
    = length (filter (λ pf : Path * file,
                        v_updated (visit_path (root ++ pf.1) pf.2) = true)
                     (reached d)).
Proof.
  induction d as [files dirs IH] using dir_ind'. intros root.
  rewrite reached_Dir. cbn [walk w_seen w_out w_count].
  rewrite !map_app, !concat_app, filter_app, length_app, !map_map.
  cbn [fst snd].
  split_and!.
  - f_equal. induction IH as [|[n sub] dirs Hsub _ IHdirs]; [done|]. cbn [snd] in Hsub.
    cbn [map concat fst snd]. rewrite map_app, IHdirs. f_equal.
    destruct (pruned n); [done|].
    destruct (Hsub (root ++ [n])) as (-> & _ & _). rewrite map_map.
    apply map_ext. intros [p f]. cbn [fst snd]. by rewrite <- app_assoc.
  - f_equal.
    + f_equal. apply map_ext. intros [n f]. cbn [fst snd].
      by rewrite visit_path_snoc.
    + induction IH as [|[n sub] dirs Hsub _ IHdirs]; [done|]. cbn [snd] in Hsub.
      cbn [map concat fst snd]. rewrite map_app, concat_app, IHdirs. f_equal.
      destruct (pruned n); [done|].
      destruct (Hsub (root ++ [n])) as (_ & -> & _). rewrite map_map.
      f_equal. apply map_ext. intros [p f]. cbn [fst snd].
      by rewrite <- app_assoc.
  - f_equal.
    + induction files as [|[n f] files IHf]; [done|].
      cbn [map]. rewrite !filter_cons. cbn [fst snd]. rewrite visit_path_snoc.
      destruct (decide (v_updated (visit root n f) = true)); cbn [length];
        by rewrite IHf.
    + induction IH as [|[n sub] dirs Hsub _ IHdirs]; [done|]. cbn [snd] in Hsub.
      cbn [map concat fst snd sum_list sum_list_with]. unfold id.
      rewrite filter_app, length_app, <- IHdirs. f_equal.
      destruct (pruned n); [done|].
      destruct (Hsub (root ++ [n])) as (_ & _ & ->).
      clear. induction (reached sub) as [|[p f] l IHl]; [done|].
      cbn [map]. rewrite !filter_cons. cbn [fst snd]. rewrite <- app_assoc.
      cbn [app].
      destruct (decide (v_updated (visit_path (root ++ n :: p) f) = true));
        cbn [length]; by rewrite IHl.
Qed.

Lemma assoc_map {A B} (g : string → A → B) n (l : list (string * A)) :
  assoc n (map (λ x : string * A, (x.1, g x.1 x.2)) l) = g n <$> assoc n l.
Proof.
  induction l as [|[k a] l IH]; [done|]. cbn [map assoc fst snd].
  destruct (String.eqb_spec n k) as [->|]; [done|apply IH].
Qed.

Lemma walk_Dir root files dirs :
  w_tree (walk root (Dir files dirs))
  = Dir (map (λ nf : string * file, (nf.1, v_file (visit root nf.1 nf.2))) files)
        (map (λ nd : string * dir,
                (nd.1, if pruned nd.1 then nd.2 else w_tree (walk (root ++ [nd.1]) nd.2)))
             dirs).
Proof.
  cbn [walk w_tree]. rewrite !map_map. f_equal.
  apply map_ext. intros [n sub]. cbn [fst snd].
  by destruct (pruned n).
Qed.

(** The directory at a path after the walk: walked, unless the path
    goes through a pruned name. *)
Lemma get_dir_walk q : ∀ d root,
  Fs.get_dir q (w_tree (walk root d))
  = (λ sub, if existsb pruned q then sub else w_tree (walk (root ++ q) sub))
      <$> Fs.get_dir q d.
Proof.
  induction q as [|n q IH]; intros [files dirs] root.
  - cbn [Fs.get_dir existsb fmap option_fmap option_map]. by rewrite app_nil_r.
  - rewrite walk_Dir. cbn [Fs.get_dir existsb].
    rewrite (assoc_map (λ n sub, if pruned n then sub
                                 else w_tree (walk (root ++ [n]) sub))).
    destruct (assoc n dirs) as [sub|]; [|done].
    cbn [fmap option_fmap option_map]. destruct (pruned n).
    + cbn [orb]. by destruct (Fs.get_dir q sub).
    + rewrite IH. cbn [orb]. destruct (Fs.get_dir q sub); [|done].
      cbn [fmap option_fmap option_map]. by rewrite <- app_assoc.
Qed.

(** The file at a path after the walk: what the loop body made of the
    file that was there, or that very file under a pruned directory. *)
Lemma file_at_walk p d root :
  Fs.file_at p (w_tree (walk root d))
  = (λ f, if under_pruned p then f else v_file (visit_path (root ++ p) f))
      <$> Fs.file_at p d.
Proof.
  destruct (decide (p = [])) as [->|Hp]; [done|].
  unfold Fs.file_at, Fs.lookup. destruct p as [|n0 p0] eqn:Ep; [done|].
  rewrite <- Ep in *. clear Ep n0 p0.
  rewrite get_dir_walk. fold (under_pruned p).
  destruct (Fs.get_dir (Path.parent p) d) as [[files dirs]|]; [|done].
  cbn [fmap option_fmap option_map].
  destruct (under_pruned p).
  - destruct (assoc (Path.name p) files); [done|].
    by destruct (assoc (Path.name p) dirs).
  - rewrite walk_Dir.
    rewrite (assoc_map (λ n f, v_file (visit (root ++ Path.parent p) n f))).
    unfold visit_path. rewrite parent_app, name_app by done.
    destruct (assoc (Path.name p) files); [done|].
    cbn [fmap option_fmap option_map].
    rewrite (assoc_map (λ n sub, if pruned n then sub
                                 else w_tree (walk ((root ++ Path.parent p) ++ [n]) sub))).
    by destruct (assoc (Path.name p) dirs).
Qed.

Lemma walk_visits d :
  w_seen (walk [] d) = map fst (visits d) ∧
  w_out (walk [] d) = concat (map (λ pv : Path * visited, v_out pv.2) (visits d)) ∧
  w_count (walk [] d)
    = length (filter (λ pv : Path * visited, v_updated pv.2 = true) (visits d)).
Proof.
  destruct (walk_reached d []) as (-> & -> & ->). unfold visits.
  rewrite !map_map. split_and!; [done..|].
  cbn [app fst snd]. induction (reached d) as [|[p f] l IH]; [done|].
  cbn [map]. rewrite !filter_cons. cbn [fst snd].
  destruct (decide (v_updated (visit_path p f) = true)); cbn [length]; by rewrite IH.
Qed.

End Walk.

(** ** The path filter *)

Section Filter.

Implicit Types (patterns : list string) (s pattern : string).

Lemma skip_loop_cons pattern patterns s :
  skip_loop (pattern :: patterns) s
  = if Str.contains pattern s then (true, 1)
    else ((skip_loop patterns s).1, S (skip_loop patterns s).2).
Proof. cbn [skip_loop]. by destruct (Str.contains pattern s), (skip_loop patterns s). Qed.

Lemma skip_loop_true patterns s :
  (skip_loop patterns s).1 = true
  ↔ ∃ pattern, pattern ∈ patterns ∧ occurs_in pattern s.
Proof.
  induction patterns as [|q patterns IH].
  - split; [done|]. by intros (? & ?%elem_of_nil & _).
  - rewrite skip_loop_cons. destruct (Str.contains q s) eqn:Hq.
    + split; [|done]. intros _. exists q. split; [by left|by apply contains_spec].
    + cbn [fst]. rewrite IH. apply contains_false in Hq. split.
      * intros (q' & ? & ?). exists q'. split; [by right|done].
      * intros (q' & [->|?]%elem_of_cons & ?); [done|by exists q'].
Qed.

(** The loop stops at the first pattern that occurs: the patterns
    after it are not tested. *)
Lemma skip_loop_first before pattern after s :
  Forall (λ q, ¬ occurs_in q s) before → occurs_in pattern s →
  skip_loop (before ++ pattern :: after) s = (true, S (length before)).
Proof.
  intros Hb Hp. induction Hb as [|q before Hq _ IH].
  - cbn [app length]. rewrite skip_loop_cons.
    apply contains_spec in Hp. by rewrite Hp.
  - cbn [app length]. rewrite skip_loop_cons, IH.
    apply contains_false in Hq. by rewrite Hq.
Qed.

Lemma skip_loop_none patterns s :
  Forall (λ q, ¬ occurs_in q s) patterns →
  skip_loop patterns s = (false, length patterns).
Proof.
  induction 1 as [|q patterns Hq _ IH]; [done|].
  rewrite skip_loop_cons, IH. apply contains_false in Hq. by rewrite Hq.
Qed.

Lemma skip_loop_perm patterns patterns' s :
  patterns ≡ₚ patterns' → (skip_loop patterns s).1 = (skip_loop patterns' s).1.
Proof.
  intros Hperm. apply eq_true_iff_eq. rewrite !skip_loop_true.
  by setoid_rewrite Hperm.
Qed.

Lemma should_skip_true path :
  should_skip path = true
  ↔ ∃ pattern, pattern ∈ SKIP_PATTERNS ∧ occurs_in pattern (Path.str path).
Proof. apply skip_loop_true. Qed.

End Filter.

(** C3: the path filter answers true exactly when some pattern of the
    skip pattern set occurs in the string form of the path; its loop
    returns at the first pattern that occurs, after testing that pattern
    and those before it only; and the answer is the same for every
    ordering of the patterns. *)
Theorem should_skip_spec :
  (∀ path : Path,
     should_skip path = true
     ↔ ∃ pattern, pattern ∈ SKIP_PATTERNS ∧ occurs_in pattern (Path.str path))
  ∧ (∀ patterns path_str,
       (skip_loop patterns path_str).1 = true
       ↔ ∃ pattern, pattern ∈ patterns ∧ occurs_in pattern path_str)
  ∧ (∀ before pattern after path_str,
       Forall (λ q, ¬ occurs_in q path_str) before →
       occurs_in pattern path_str →
       skip_loop (before ++ pattern :: after) path_str = (true, S (length before)))
  ∧ (∀ patterns patterns' path_str,
       patterns ≡ₚ patterns' →
       (skip_loop patterns path_str).1 = (skip_loop patterns' path_str).1).
Proof.
  split_and!.
  - apply should_skip_true.
  - apply skip_loop_true.
  - apply skip_loop_first.
  - apply skip_loop_perm.
Qed.

(** A path of the [dist] directory is skipped at the fourth test, in
    the script's order of the patterns and in the reverse order alike. *)
Lemma should_skip_spec_witness :
  skip_loop (["node_modules"; ".git"; ".next"] ++ "dist" :: ["build"; "*.original"; "replace-project-name.py"])
            "src/dist/app.js" = (true, 4)
  ∧ (skip_loop SKIP_PATTERNS "src/dist/app.js").1
    = (skip_loop (reverse SKIP_PATTERNS) "src/dist/app.js").1.
Proof.
  destruct should_skip_spec as (_ & _ & Hfirst & Hperm). split.
  - apply (Hfirst ["node_modules"; ".git"; ".next"] "dist").
    + repeat constructor; by apply contains_false.
    + by apply contains_spec.
  - apply Hperm. symmetry. apply reverse_Permutation.
Defined.

(** C10: the pattern [*.original] is a literal.  The filter built on it
    alone answers true exactly for the paths in which the characters
    [*.original] occur; the backup lib/config.ts.original is not skipped
    by the filter of the script, which matches the pattern on a path
    that holds the asterisk; the backup is left alone because its
    extension [.original] is not in the dispatch table. *)
Theorem original_pattern_literal :
  (∀ path : Path,
     (skip_loop ["*.original"] (Path.str path)).1 = true
     ↔ occurs_in "*.original" (Path.str path))
  ∧ "*.original" ∈ SKIP_PATTERNS
  ∧ should_skip ["lib"; "config.ts.original"] = false
  ∧ should_skip ["lib"; "*.original"] = true
  ∧ Str.lower (Path.suffix ["lib"; "config.ts.original"]) = ".original"
  ∧ file_handlers !! ".original" = None
  ∧ (∀ f, visit ["lib"] "config.ts.original" f = untouched f).
Proof.
  split_and!; try done.
  - intros path. rewrite skip_loop_true. split.
    + by intros (q & ->%list_elem_of_singleton & ?).
    + intros ?. exists "*.original". split; [by left|done].
  - by apply (bool_decide_unpack _).
Qed.

(** ** Content substitution *)

(** C9: the seven entries of [replacements], applied in order, rewrite
    every text as the three entries of [core_replacements] do.  The
    first entry leaves no occurrence of the bare name, its replacement
    text holds no key, and each of the four entries that follow, whose
    keys contain the bare name, leaves the text as the first entry made
    it. *)
Theorem replacements_equiv_core :
  ∀ s,
    substitute replacements s = substitute core_replacements s
    ∧ Str.contains "nda-analyzer" (Str.replace "nda-analyzer" "${PROJECT_NAME}" s) = false
    ∧ (∀ k, k ∈ keys replacements → Str.contains k "${PROJECT_NAME}" = false)
    ∧ (∀ old new,
         (old, new) ∈ take 4 (drop 1 replacements) →
         occurs_in "nda-analyzer" old
         ∧ Str.replace old new (Str.replace "nda-analyzer" "${PROJECT_NAME}" s)
           = Str.replace "nda-analyzer" "${PROJECT_NAME}" s).
Proof.
  intros s. split_and!.
  - apply replacements_core.
  - apply bare_name_removed.
  - intros k Hk. unfold keys, replacements in Hk. cbn [map fst] in Hk.
    repeat (apply elem_of_cons in Hk as [->|Hk]; [done|]).
    by apply elem_of_nil in Hk.
  - intros old new H. cbn [replacements take drop] in H.
    assert (occurs_in "nda-analyzer" old) as Hocc.
    { repeat (apply elem_of_cons in H as [[= -> ->]|H];
              [apply contains_spec; reflexivity|]).
      by apply elem_of_nil in H. }
    split; [done|]. by apply later_key_idle.
Qed.

(** The path of a deployment script: after the first entry the key
    with the trailing slash finds nothing. *)
Lemma replacements_equiv_core_witness :
  substitute replacements "cd /srv/nda-analyzer/app"
  = substitute core_replacements "cd /srv/nda-analyzer/app"
  ∧ occurs_in "nda-analyzer" "nda-analyzer/"
  ∧ Str.replace "nda-analyzer/" "${PROJECT_NAME}/"
      (Str.replace "nda-analyzer" "${PROJECT_NAME}" "cd /srv/nda-analyzer/app")
    = Str.replace "nda-analyzer" "${PROJECT_NAME}" "cd /srv/nda-analyzer/app".
Proof.
  destruct (replacements_equiv_core "cd /srv/nda-analyzer/app") as (Heq & _ & _ & Hidle).
  split; [exact Heq|].
  apply (Hidle "nda-analyzer/" "${PROJECT_NAME}/").
  by apply (bool_decide_unpack _).
Defined.

(** C7: when the text a first pass of the substitution returns holds
    none of the keys of the map, a second pass with the same map returns
    that text; on a file holding it, [replace_in_file] writes nothing,
    prints nothing and returns false. *)
Theorem substitute_steady_state (handler : list (string * string)) (content : string) :
  (∀ k, k ∈ keys handler → ¬ occurs_in k (substitute handler content)) →
  substitute handler (substitute handler content)
  = substitute handler content
  ∧ ∀ file_path wf,
      replace_in_file file_path handler
        (File (Text (substitute handler content)) wf)
      = untouched (File (Text (substitute handler content)) wf).
Proof.
  intros Hkeys.
  assert (substitute handler (substitute handler content)
          = substitute handler content) as Hfix.
  { apply substitute_absent. intros k Hk. by apply contains_false, Hkeys. }
  split; [done|]. intros file_path wf. unfold replace_in_file. cbn [data].
  rewrite Hfix. by rewrite bool_decide_false by (by intros []).
Qed.

Lemma substitute_steady_state_witness :
  substitute replacements (substitute replacements "cd /nda-analyzer/docs")
  = substitute replacements "cd /nda-analyzer/docs"
  ∧ ∀ file_path wf,
      replace_in_file file_path replacements
        (File (Text (substitute replacements "cd /nda-analyzer/docs")) wf)
      = untouched (File (Text (substitute replacements "cd /nda-analyzer/docs")) wf).
Proof.
  apply (substitute_steady_state replacements "cd /nda-analyzer/docs").
  intros k Hk. apply contains_false.
  unfold keys, replacements in Hk. cbn [map fst] in Hk.
  repeat (apply elem_of_cons in Hk as [->|Hk]; [reflexivity|]).
  by apply elem_of_nil in Hk.
Defined.

(** Without that condition a second pass may go on rewriting. *)
Example substitute_cascade :
  substitute [("a", "aa")] "a" = "aa"
  ∧ substitute [("a", "aa")] (substitute [("a", "aa")] "a") = "aaaa".
Proof. done. Qed.

(** ** Errors while a file is processed *)

Section Errors.

Lemma occurs_in_middle a s b : occurs_in s (a +:+ s +:+ b).
Proof. by exists a, b. Qed.

Lemma error_line_path file_path e :
  occurs_in (Path.str file_path) (error_line file_path e).
Proof. apply occurs_in_middle. Qed.

Lemma error_line_message file_path e : occurs_in e (error_line file_path e).
Proof.
  exists ("  ✗ Error updating " +:+ Path.str file_path +:+ ": "), "".
  unfold error_line. by rewrite str_app_nil_r, !str_app_assoc.
Qed.

(** The statements of the function compute its summary when the
    console takes every line. *)
Lemma io_replace_in_file console file_path handler f lines :
  (∀ line, console line = None) →
  Io.replace_in_file console file_path handler (Io.State f lines)
  = (Ok (v_updated (replace_in_file file_path handler f)),
     Io.State (v_file (replace_in_file file_path handler f))
              (lines ++ v_out (replace_in_file file_path handler f))).
Proof.
  intros Hconsole.
  unfold Io.replace_in_file, replace_in_file, Io.bind, Io.try_except, Io.read,
    Io.write, Io.print, Io.ret.
  destruct f as [[content|e] wf]; cbn [data wfail Io.opened Io.printed].
  - case_bool_decide as E.
    + destruct wf as [[e residue]|]; cbn [data wfail Io.opened Io.printed];
        by rewrite Hconsole.
    + cbn [untouched v_file v_out v_updated]. by rewrite app_nil_r.
  - by rewrite Hconsole.
Qed.

(** Whatever the console does, an error leaves the function only from
    the call of [print] in the handler. *)
Lemma io_replace_in_file_raise console file_path handler s msg s' :
  Io.replace_in_file console file_path handler s = (Raise msg, s') →
  ∃ e, console (error_line file_path e) = Some msg.
Proof.
  unfold Io.replace_in_file.
  set (body := Io.bind Io.read _).
  set (except := λ e, Io.bind (Io.print console (error_line file_path e)) _).
  unfold Io.bind at 1. unfold Io.try_except.
  destruct (body s) as [[returned|e] s0].
  - by destruct returned.
  - destruct (except e s0) as [[returned|e'] s1] eqn:Hexcept; [by destruct returned|].
    intros [= -> ->]. exists e. subst except. cbv beta in Hexcept.
    unfold Io.bind, Io.print in Hexcept.
    destruct (console (error_line file_path e)); [|done]. by injection Hexcept as ->.
Qed.

(** An error ends a sequence at the command that raised it. *)
Lemma bind_Raise {A B} (c : M A) (k : A → M B) w msg w' :
  bind c k w = (Raise msg, w') →
  c w = (Raise msg, w') ∨ ∃ a w1, c w = (Ok a, w1) ∧ k a w1 = (Raise msg, w').
Proof.
  unfold bind. destruct (c w) as [[a|e] w1]; intros H.
  - right. by exists a, w1.
  - injection H as -> ->. by left.
Qed.

(** A run that does not return has been ended by one of the
    generators. *)
Lemma main_Raise w msg w' :
  main w = (Raise msg, w') →
  ∃ w1, create_env_template w1 = (Raise msg, w')
        ∨ update_config_ts w1 = (Raise msg, w')
        ∨ create_setup_script w1 = (Raise msg, w').
Proof.
  intros H. unfold main in H.
  repeat (apply bind_Raise in H as [H|(? & ? & _ & H)];
          [first [discriminate H | eexists; eauto]|]).
  discriminate H.
Qed.

End Errors.

(** C6: when reading or decoding the file raises, or writing it back
    does, the handler of [replace_in_file] catches the error, prints one
    line that holds the path and the text of the error, and the function
    returns false.  No error of the file leaves the function: one can
    leave it only from the call of [print] in the handler, and with a
    console that takes every line the function returns what its summary
    says.  The walk goes on: it always returns, and every file of the
    tree that lies under no pruned directory is what the loop body makes
    of it, whatever became of the files before; the lines printed are
    those of the calls in order, and the count is the number of calls
    that returned true.  A run that does not return has been ended by an
    error of one of the three generators. *)
Theorem replace_in_file_errors_caught :
  (∀ console file_path handler f lines e,
     data f = Unreadable e →
     console (error_line file_path e) = None →
     Io.replace_in_file console file_path handler (Io.State f lines)
     = (Ok false, Io.State f (lines ++ [error_line file_path e])))
  ∧ (∀ console file_path handler f lines content e residue,
       data f = Text content → substitute handler content ≠ content →
       wfail f = Some (e, residue) →
       console (error_line file_path e) = None →
       Io.replace_in_file console file_path handler (Io.State f lines)
       = (Ok false, Io.State (File residue (wfail f)) (lines ++ [error_line file_path e])))
  ∧ (∀ file_path e,
       occurs_in (Path.str file_path) (error_line file_path e)
       ∧ occurs_in e (error_line file_path e))
  ∧ (∀ console file_path handler s msg s',
       Io.replace_in_file console file_path handler s = (Raise msg, s') →
       ∃ e, console (error_line file_path e) = Some msg)
  ∧ (∀ console file_path handler f lines,
       (∀ line, console line = None) →
       Io.replace_in_file console file_path handler (Io.State f lines)
       = (Ok (v_updated (replace_in_file file_path handler f)),
          Io.State (v_file (replace_in_file file_path handler f))
                   (lines ++ v_out (replace_in_file file_path handler f))))
  ∧ (∀ w, ∃ w',
       process_files w
       = (Ok (length (filter (λ pv : Path * visited, v_updated pv.2 = true)
                             (visits (fs w)))), w')
       ∧ out w' = out w ++ concat (map (λ pv : Path * visited, v_out pv.2) (visits (fs w)))
       ∧ ∀ p, Fs.file_at p (fs w')
              = (λ f, if under_pruned p then f else v_file (visit_path p f))
                  <$> Fs.file_at p (fs w))
  ∧ (∀ d, w_seen (walk [] d) = map fst (reached d))
  ∧ (∀ w msg w',
       main w = (Raise msg, w') →
       ∃ w1, create_env_template w1 = (Raise msg, w')
             ∨ update_config_ts w1 = (Raise msg, w')
             ∨ create_setup_script w1 = (Raise msg, w')).
Proof.
  split_and!.
  - intros console file_path handler f lines e Hd Hc.
    unfold Io.replace_in_file, Io.bind, Io.try_except, Io.read, Io.print, Io.ret.
    cbn [Io.opened Io.printed]. by rewrite Hd, Hc.
  - intros console file_path handler f lines content e residue Hd Hne Hw Hc.
    unfold Io.replace_in_file, Io.bind, Io.try_except, Io.read, Io.write, Io.print,
      Io.ret.
    cbn [Io.opened Io.printed]. rewrite Hd, bool_decide_true by done.
    cbn [Io.opened Io.printed]. by rewrite Hw, Hc.
  - split; [apply error_line_path|apply error_line_message].
  - apply io_replace_in_file_raise.
  - apply io_replace_in_file.
  - intros w. destruct (walk_visits (fs w)) as (_ & Hout & Hcount).
    exists (World (w_tree (walk [] (fs w))) (out w ++ w_out (walk [] (fs w)))).
    unfold process_files. rewrite Hcount. split_and!; [done|by rewrite Hout|].
    intros p. cbn [fs]. by rewrite file_at_walk.
  - intros d. destruct (walk_visits d) as (-> & _ & _).
    unfold visits. by rewrite map_map.
  - apply main_Raise.
Qed.

(** A tree with a file that cannot be decoded, one that cannot be
    written and one in order: two lines of error, and the third file is
    updated and counted.  A console that refuses the line of an error
    is the one way out of the function. *)
Lemma replace_in_file_errors_caught_witness :
  let bad := File (Unreadable "'utf-8' codec can't decode byte 0xff") None in
  let ro := File (Text "nda-analyzer")
                 (Some ("[Errno 13] Permission denied: 'b.ts'", Text "nda-analyzer")) in
  let d := Dir [("a.ts", bad); ("b.ts", ro); ("c.ts", writable "nda-analyzer")] [] in
  let closed := λ line : string,
    if Str.startswith "  ✗" line then Some "[Errno 32] Broken pipe" else None in
  Io.replace_in_file (λ _, None) ["a.ts"] replacements (Io.State bad [])
  = (Ok false,
     Io.State bad [error_line ["a.ts"] "'utf-8' codec can't decode byte 0xff"])
  ∧ Io.replace_in_file (λ _, None) ["b.ts"] replacements (Io.State ro [])
    = (Ok false,
       Io.State ro [error_line ["b.ts"] "[Errno 13] Permission denied: 'b.ts'"])
  ∧ (∃ e, closed (error_line ["a.ts"] e) = Some "[Errno 32] Broken pipe")
  ∧ (∃ w', process_files (World d []) = (Ok 1, w')
           ∧ out w'
             = [error_line ["a.ts"] "'utf-8' codec can't decode byte 0xff";
                error_line ["b.ts"] "[Errno 13] Permission denied: 'b.ts'";
                updated_line ["c.ts"]]
           ∧ Fs.file_at ["c.ts"] (fs w') = Some (writable "${PROJECT_NAME}"))
  ∧ w_seen (walk [] d) = [["a.ts"]; ["b.ts"]; ["c.ts"]].
Proof.
  intros bad ro d closed.
  destruct replace_in_file_errors_caught
    as (Hread & Hwrite & _ & Hraise & _ & Hwalk & Hseen & _).
  split_and!.
  - by apply (Hread (λ _, None) ["a.ts"] replacements bad []).
  - by apply (Hwrite (λ _, None) ["b.ts"] replacements ro [] "nda-analyzer"
                     "[Errno 13] Permission denied: 'b.ts'" (Text "nda-analyzer")).
  - by apply (Hraise closed ["a.ts"] replacements (Io.State bad [])
                     "[Errno 32] Broken pipe" (Io.State bad [])).
  - destruct (Hwalk (World d [])) as (w' & Hp & Hout & Hfile). exists w'.
    split_and!; [by rewrite Hp|by rewrite Hout|by rewrite Hfile].
  - by rewrite Hseen.
Defined.

(** ** The generated setup script *)

(** The text written to setup-project.sh tests the name, then exits
    with status 1, before it copies the environment template. *)
Example setup_content_validates_first :
  ∃ a b c,
    setup_content
    = a +:+ " =~ ^[a-z0-9-]+$ ]]; then" +:+ b +:+ "exit 1" +:+ c
    ∧ Str.contains "cp .env.template .env" a = false
    ∧ Str.contains "cp .env.template .env" b = false
    ∧ Str.contains "cp .env.template .env" c = true.
Proof.
  exists (Str.take 268 setup_content),
         (Str.take 89 (Str.drop 293 setup_content)),
         (Str.drop 388 setup_content).
  by vm_compute.
Qed.

(** Every rejected name ends the script in the same way. *)
Lemma setup_rejects rewrite_manifest name d :
  Setup.valid_name name = false →
  Setup.status (Setup.setup_project rewrite_manifest name d) = 1
  ∧ Setup.tree (Setup.setup_project rewrite_manifest name d) = d
  ∧ Setup.echoed (Setup.setup_project rewrite_manifest name d)
    = ["VVG Template Setup"; "==================";
       "Error: Project name must be lowercase letters, numbers, and hyphens only"].
Proof. intros H. unfold Setup.setup_project. by rewrite H. Qed.

(** The names the script accepts. *)
Lemma valid_name_spec name :
  Setup.valid_name name = true
  ↔ name ≠ "" ∧ ∀ c, Str.has_char c name = true → Setup.name_char c = true.
Proof.
  assert (∀ s, Setup.all_name_chars s = true
               ↔ ∀ c, Str.has_char c s = true → Setup.name_char c = true) as Hall.
  { induction s as [|a s IH]; [done|]. cbn [Setup.all_name_chars Str.has_char].
    rewrite andb_true_iff, IH. split.
    - intros [Ha Hs] c [Hc|Hc]%orb_true_iff; [|by apply Hs].
      apply Ascii.eqb_eq in Hc. by subst.
    - intros H. split; [apply H; by rewrite Ascii.eqb_refl|].
      intros c Hc. apply H. by rewrite Hc, orb_true_r. }
  destruct name as [|a s]; [by split; [|intros []]|].
  unfold Setup.valid_name. rewrite Hall. by split; [|intros []].
Qed.

(** C8: run with the name [My Project!], which the pattern of lower-case
    letters, digits and hyphens rejects, the setup script echoes its
    banner and an error, exits with status 1 and leaves the tree as it
    found it: whatever the later commands would do, none is run, and no
    .env appears. *)
Theorem setup_rejects_invalid_name :
  ∀ (rewrite_manifest : string → dir → dir) (d : dir),
    Setup.valid_name "My Project!" = false
    ∧ Setup.setup_project rewrite_manifest "My Project!" d
      = Setup.Outcome d
          ["VVG Template Setup"; "==================";
           "Error: Project name must be lowercase letters, numbers, and hyphens only"]
          1
    ∧ Fs.lookup [".env"] (Setup.tree (Setup.setup_project rewrite_manifest "My Project!" d))
      = Fs.lookup [".env"] d.
Proof.
  intros rewrite_manifest d.
  assert (Setup.valid_name "My Project!" = false) as Hname by reflexivity.
  destruct (setup_rejects rewrite_manifest "My Project!" d Hname) as (Hs & Ht & He).
  split_and!; [done| |by rewrite Ht].
  destruct (Setup.setup_project rewrite_manifest "My Project!" d) as [t e s'].
  cbn [Setup.status Setup.tree Setup.echoed] in *. by subst.
Qed.

(** An accepted name goes on to create .env from the template. *)
Example setup_accepts :
  let d := Dir [(".env.template", writable env_template)] [] in
  let r := Setup.setup_project (λ _ d, d) "my-project" d in
  Setup.status r = 0
  ∧ Fs.lookup [".env"] d = None
  ∧ ∃ s, Fs.file_at [".env"] (Setup.tree r) = Some (writable s)
         ∧ Str.contains "PROJECT_NAME=my-project" s = true
         ∧ Str.contains "APP_BASE_PATH=/my-project" s = true.
Proof. intros d r. split_and!; [done..|]. eexists. by vm_compute. Qed.

(** ** The file system *)

Section FsFacts.

Implicit Types (d : dir) (p q r : Path) (n m : string).

Lemma assoc_set_eq {A} n (a : A) l : assoc n (assoc_set n a l) = Some a.
Proof.
  induction l as [|[k b] l IH]; cbn [assoc_set assoc].
  - by rewrite String.eqb_refl.
  - destruct (String.eqb_spec n k) as [->|Hne]; cbn [assoc].
    + by rewrite String.eqb_refl.
    + by destruct (String.eqb_spec n k).
Qed.

Lemma assoc_set_ne {A} m n (a : A) l : m ≠ n → assoc m (assoc_set n a l) = assoc m l.
Proof.
  intros Hne. induction l as [|[k b] l IH]; cbn [assoc_set assoc].
  - by destruct (String.eqb_spec m n).
  - destruct (String.eqb_spec n k) as [->|]; cbn [assoc].
    + by destruct (String.eqb_spec m k).
    + by rewrite IH.
Qed.

Lemma assoc_del_eq {A} n (l : list (string * A)) : assoc n (assoc_del n l) = None.
Proof.
  induction l as [|[k b] l IH]; [done|]. cbn [assoc_del].
  destruct (String.eqb_spec n k) as [->|]; [done|]. cbn [assoc].
  by destruct (String.eqb_spec n k).
Qed.

Lemma assoc_del_ne {A} m n (l : list (string * A)) :
  m ≠ n → assoc m (assoc_del n l) = assoc m l.
Proof.
  intros Hne. induction l as [|[k b] l IH]; [done|]. cbn [assoc_del assoc].
  destruct (String.eqb_spec n k) as [->|]; cbn [assoc].
  - by destruct (String.eqb_spec m k).
  - by rewrite IH.
Qed.

Lemma assoc_snoc_ne {A} m n (a : A) l : m ≠ n → assoc m (l ++ [(n, a)]) = assoc m l.
Proof.
  intros Hne. induction l as [|[k b] l IH]; cbn [app assoc].
  - by destruct (String.eqb_spec m n).
  - by rewrite IH.
Qed.

Lemma assoc_snoc_new {A} n (a : A) l :
  assoc n l = None → assoc n (l ++ [(n, a)]) = Some a.
Proof.
  induction l as [|[k b] l IH]; cbn [app assoc].
  - by rewrite String.eqb_refl.
  - by destruct (String.eqb_spec n k).
Qed.

Lemma path_split q : q ≠ [] → q = Path.parent q ++ [Path.name q].
Proof. intros. by apply app_removelast_last. Qed.

Lemma file_at_files_at p d :
  p ≠ [] →
  Fs.file_at p d = files_at (Path.parent p) d ≫= assoc (Path.name p).
Proof.
  intros Hp. unfold Fs.file_at, Fs.lookup, files_at.
  destruct p as [|n0 p0]; [done|].
  generalize (Path.parent (n0 :: p0)) (Path.name (n0 :: p0)). intros pp nn.
  destruct (Fs.get_dir pp d) as [[fs0 ds0]|]; [|done].
  cbn [fmap option_fmap option_map mbind option_bind].
  destruct (assoc nn fs0); [done|]. by destruct (assoc nn ds0).
Qed.

Lemma get_dir_app q r d :
  Fs.get_dir (q ++ r) d = Fs.get_dir q d ≫= Fs.get_dir r.
Proof.
  revert d. induction q as [|n q IH]; intros [fs0 ds0]; [done|].
  cbn [app Fs.get_dir]. destruct (assoc n ds0); [apply IH|done].
Qed.

Lemma get_dir_set_dir q r new d :
  is_Some (Fs.get_dir q d) →
  Fs.get_dir (q ++ r) (Fs.set_dir q new d) = Fs.get_dir r new.
Proof.
  revert d. induction q as [|n q IH]; intros [fs0 ds0]; [done|].
  cbn [app Fs.get_dir Fs.set_dir]. destruct (assoc n ds0) as [sub|] eqn:E.
  - intros H. cbn [Fs.get_dir]. rewrite assoc_set_eq. by apply IH.
  - by intros [? ?].
Qed.

(** Replacing the directory at [q] leaves the listing of files of
    every directory that is not [q] or below it. *)
Lemma files_at_set_dir q new d p :
  ¬ q `prefix_of` p → files_at p (Fs.set_dir q new d) = files_at p d.
Proof.
  revert d p. induction q as [|n q IH]; intros [fs0 ds0] p Hp.
  - destruct Hp. apply prefix_nil.
  - cbn [Fs.set_dir]. destruct (assoc n ds0) as [sub|] eqn:E; [|done].
    destruct p as [|m p]; [done|]. unfold files_at. cbn [Fs.get_dir].
    destruct (decide (m = n)) as [->|Hne].
    + rewrite assoc_set_eq, E. apply IH. intros Hq. apply Hp.
      by apply prefix_cons.
    + by rewrite assoc_set_ne.
Qed.

(** A change confined to one name of one directory.  When the
    directory at the parent of [q] is replaced by one that agrees with
    it on every name but the name of [q], the files that are not [q]
    or below it stay as they are. *)
Lemma local_change q fs0 ds0 fs1 ds1 d p :
  q ≠ [] →
  Fs.get_dir (Path.parent q) d = Some (Dir fs0 ds0) →
  (∀ m, m ≠ Path.name q → assoc m fs1 = assoc m fs0 ∧ assoc m ds1 = assoc m ds0) →
  ¬ q `prefix_of` p →
  Fs.file_at p (Fs.set_dir (Path.parent q) (Dir fs1 ds1) d) = Fs.file_at p d.
Proof.
  intros Hq Hget Hagree Hp.
  destruct (decide (p = [])) as [->|Hp0]; [done|].
  rewrite !file_at_files_at by done.
  pose proof (path_split q Hq) as Eq. pose proof (path_split p Hp0) as Ep.
  remember (Path.parent q) as pq eqn:E1. remember (Path.name q) as nq eqn:E2.
  remember (Path.parent p) as pp eqn:E3. remember (Path.name p) as np eqn:E4.
  clear E1 E2 E3 E4 Hq Hp0. subst p q.
  destruct (decide (pq `prefix_of` pp)) as [[r ->]|Hpre];
    [|by rewrite files_at_set_dir].
  unfold files_at. rewrite get_dir_set_dir, get_dir_app, Hget by done.
  cbn [mbind option_bind].
  destruct r as [|x r].
  - cbn [Fs.get_dir fmap option_fmap option_map mbind option_bind].
    apply Hagree. intros ->. apply Hp. exists []. by rewrite !app_nil_r.
  - cbn [Fs.get_dir]. destruct (decide (x = nq)) as [->|Hx].
    + destruct Hp. exists (r ++ [np]). by rewrite <- !app_assoc.
    + by destruct (Hagree x Hx) as [_ ->].
Qed.

End FsFacts.

(** ** The generators *)

Section Generators.

Implicit Types (d : dir) (p q : Path) (w : world).

Lemma backup_path_eq : Path.with_suffix config_path ".ts.original" = backup_path.
Proof. done. Qed.

Lemma lookup_in q d :
  q ≠ [] →
  Fs.lookup q d
  = Fs.get_dir (Path.parent q) d ≫= λ x,
      let 'Dir fs0 ds0 := x in
      match assoc (Path.name q) fs0 with
      | Some f => Some (inl f)
      | None => inr <$> assoc (Path.name q) ds0
      end.
Proof.
  intros Hq. unfold Fs.lookup. destruct q as [|n0 q0]; [done|].
  generalize (Path.parent (n0 :: q0)) (Path.name (n0 :: q0)). intros pq nq.
  by destruct (Fs.get_dir pq d) as [[fs0 ds0]|].
Qed.

Lemma get_dir_set_dir_eq q new d :
  is_Some (Fs.get_dir q d) → Fs.get_dir q (Fs.set_dir q new d) = Some new.
Proof.
  intros H. rewrite <- (app_nil_r q) at 1. by rewrite get_dir_set_dir.
Qed.

Lemma exists_false q d : Fs.exists_ q d = false ↔ Fs.lookup q d = None.
Proof.
  unfold Fs.exists_. rewrite bool_decide_eq_false, <- eq_None_not_Some. done.
Qed.

Lemma exists_true q d : Fs.exists_ q d = true ↔ is_Some (Fs.lookup q d).
Proof. unfold Fs.exists_. by rewrite bool_decide_eq_true. Qed.

(** *** What each call does in the directory it acts on *)

Lemma remove_at q d fs0 ds0 :
  Fs.get_dir (Path.parent q) d = Some (Dir fs0 ds0) →
  Fs.get_dir (Path.parent q) (Fs.remove q d)
  = Some (Dir (assoc_del (Path.name q) fs0) (assoc_del (Path.name q) ds0)).
Proof. intros H. unfold Fs.remove. rewrite H. by apply get_dir_set_dir_eq. Qed.

Lemma put_at q e d fs0 ds0 :
  Fs.get_dir (Path.parent q) d = Some (Dir fs0 ds0) →
  ∃ d', Fs.put q e d = Some d'
        ∧ Fs.get_dir (Path.parent q) d'
          = Some (match e with
                  | inl f => Dir (assoc_set (Path.name q) f fs0) ds0
                  | inr sub => Dir fs0 (assoc_set (Path.name q) sub ds0)
                  end).
Proof.
  intros H. unfold Fs.put. rewrite H. eexists. split; [done|].
  by apply get_dir_set_dir_eq.
Qed.

Lemma write_new_at q s d fs0 ds0 :
  q ≠ [] →
  Fs.get_dir (Path.parent q) d = Some (Dir fs0 ds0) →
  assoc (Path.name q) ds0 = None → assoc (Path.name q) fs0 = None →
  ∃ d', Fs.write q s d = (Ok tt, d')
        ∧ Fs.get_dir (Path.parent q) d'
          = Some (Dir (fs0 ++ [(Path.name q, writable s)]) ds0).
Proof.
  intros Hq H Hds Hfs. unfold Fs.write. destruct q as [|n0 q0]; [done|].
  rewrite H, Hds, Hfs. eexists. split; [done|]. by apply get_dir_set_dir_eq.
Qed.

Lemma rename_at src dst d e :
  Fs.lookup src d = Some e → Fs.lookup dst d = None → src ≠ [] →
  is_Some (Fs.get_dir (Path.parent dst) (Fs.remove src d)) →
  ∃ d', Fs.rename src dst d = (Ok tt, d') ∧ Fs.put dst e (Fs.remove src d) = Some d'.
Proof.
  intros He Hdst Hsrc [[fs1 ds1] Hget]. unfold Fs.rename.
  destruct src as [|n0 q0]; [done|]. rewrite He, Hdst.
  destruct (put_at dst e _ _ _ Hget) as (d' & Hput & _). rewrite Hput.
  exists d'. by destruct e.
Qed.

(** *** What each call leaves alone *)

Lemma write_frame q s d p :
  ¬ q `prefix_of` p → Fs.file_at p (Fs.write q s d).2 = Fs.file_at p d.
Proof.
  intros Hp. unfold Fs.write. destruct q as [|n0 q0] eqn:E; [done|].
  rewrite <- E in *. assert (q ≠ []) as Hq by (by rewrite E). clear E n0 q0.
  destruct (Fs.get_dir (Path.parent q) d) as [[fs0 ds0]|] eqn:Hget; [|done].
  destruct (assoc (Path.name q) ds0); [done|].
  destruct (assoc (Path.name q) fs0) as [f|].
  - destruct (wfail f) as [[msg residue]|]; cbn [snd];
      (eapply local_change; [done..| |done]); intros m Hm;
      by rewrite assoc_set_ne.
  - cbn [snd]. eapply local_change; [done..| |done]. intros m Hm.
    by rewrite assoc_snoc_ne.
Qed.

Lemma remove_frame q d p :
  q ≠ [] → ¬ q `prefix_of` p → Fs.file_at p (Fs.remove q d) = Fs.file_at p d.
Proof.
  intros Hq Hp. unfold Fs.remove.
  destruct (Fs.get_dir (Path.parent q) d) as [[fs0 ds0]|] eqn:Hget; [|done].
  eapply local_change; [done..| |done]. intros m Hm.
  by rewrite !assoc_del_ne.
Qed.

Lemma put_frame q e d d' p :
  q ≠ [] → ¬ q `prefix_of` p → Fs.put q e d = Some d' →
  Fs.file_at p d' = Fs.file_at p d.
Proof.
  intros Hq Hp. unfold Fs.put.
  destruct (Fs.get_dir (Path.parent q) d) as [[fs0 ds0]|] eqn:Hget; [|done].
  intros [= <-]. destruct e as [f|sub];
    (eapply local_change; [done..| |done]); intros m Hm;
    by rewrite assoc_set_ne.
Qed.

Lemma rename_frame src dst d p :
  dst ≠ [] → ¬ src `prefix_of` p → ¬ dst `prefix_of` p →
  Fs.file_at p (Fs.rename src dst d).2 = Fs.file_at p d.
Proof.
  intros Hdst Hp1 Hp2. unfold Fs.rename.
  destruct src as [|n0 q0] eqn:E; [done|].
  rewrite <- E in *. assert (src ≠ []) as Hsrc by (by rewrite E). clear E n0 q0.
  destruct (Fs.lookup src d) as [e|]; [|done].
  assert (Fs.file_at p
            (match Fs.put dst e (Fs.remove src d) with
             | Some d' => (Ok tt, d')
             | None => (Raise (Fs.os_error2 2 "No such file or directory" src dst), d)
             end : result unit * dir).2 = Fs.file_at p d) as Hmove.
  { destruct (Fs.put dst e (Fs.remove src d)) as [d'|] eqn:Hput; [|done].
    cbn [snd]. rewrite (put_frame dst e (Fs.remove src d) d' p) by done.
    by apply remove_frame. }
  destruct (Fs.lookup dst d) as [[f|sub]|]; [|done|done].
  by destruct e.
Qed.

(** With the configuration present and no backup, the generator moves
    the one to the name of the other and writes the new module. *)
Lemma update_config_ts_first w e :
  Fs.lookup config_path (fs w) = Some e →
  Fs.lookup backup_path (fs w) = None →
  ∃ d' d'',
    Fs.rename config_path backup_path (fs w) = (Ok tt, d')
    ∧ Fs.write config_path config_content d' = (Ok tt, d'')
    ∧ update_config_ts w = (Ok tt, World d'' (out w ++ ["✓ Updated lib/config.ts"]))
    ∧ Fs.lookup backup_path d'' = Some e
    ∧ Fs.file_at config_path d'' = Some (writable config_content).
Proof.
  intros He Hb.
  assert (config_path ≠ []) as Hc by done.
  pose proof He as He'. rewrite lookup_in in He' by done.
  destruct (Fs.get_dir (Path.parent config_path) (fs w)) as [[fs0 ds0]|] eqn:Hget;
    [|done].
  cbn [mbind option_bind] in He'.
  pose proof Hb as Hb'. rewrite lookup_in in Hb' by done.
  change (Path.parent backup_path) with (Path.parent config_path) in Hb'.
  rewrite Hget in Hb'. cbn [mbind option_bind] in Hb'.
  pose proof (remove_at _ _ _ _ Hget) as Hget1.
  destruct (rename_at config_path backup_path (fs w) e He Hb Hc) as (d1 & Hren & Hput).
  { change (Path.parent backup_path) with (Path.parent config_path).
    by rewrite Hget1. }
  destruct (put_at backup_path e _ _ _ Hget1) as (d1' & Hput' & Hget2).
  rewrite Hput in Hput'. injection Hput' as <-.
  change (Path.parent backup_path) with (Path.parent config_path) in Hget2.
  assert (Path.name config_path ≠ Path.name backup_path) as Hne by done.
  assert (assoc (Path.name backup_path) fs0 = None
          ∧ assoc (Path.name backup_path) ds0 = None) as [Hbf Hbd].
  { destruct (assoc (Path.name backup_path) fs0); [done|].
    by destruct (assoc (Path.name backup_path) ds0). }
  set (X := match e with
            | inl f => Dir (assoc_set (Path.name backup_path) f
                              (assoc_del (Path.name config_path) fs0))
                           (assoc_del (Path.name config_path) ds0)
            | inr sub => Dir (assoc_del (Path.name config_path) fs0)
                             (assoc_set (Path.name backup_path) sub
                                (assoc_del (Path.name config_path) ds0))
            end) in *.
  destruct X as [fs2 ds2] eqn:EX.
  assert (assoc (Path.name config_path) fs2 = None
          ∧ assoc (Path.name config_path) ds2 = None
          ∧ match assoc (Path.name backup_path) fs2 with
            | Some f => Some (inl f)
            | None => inr <$> assoc (Path.name backup_path) ds2
            end = Some e) as (Hcf & Hcd & Hbe).
  { subst X. destruct e as [f|sub]; injection EX as <- <-.
    - by rewrite assoc_set_ne, assoc_set_eq, !assoc_del_eq.
    - rewrite assoc_set_ne, assoc_set_eq, !assoc_del_eq by done.
      by rewrite assoc_del_ne, Hbf. }
  destruct (write_new_at config_path config_content d1 fs2 ds2 Hc Hget2 Hcd Hcf)
    as (d2 & Hwrite & Hget3).
  exists d1, d2. split_and!; [done..| | |].
  - unfold update_config_ts, bind, path_exists. rewrite backup_path_eq.
    rewrite (proj2 (exists_true _ _)) by (by rewrite He).
    rewrite (proj2 (exists_false _ _)) by done. cbn [negb].
    unfold on_fs. cbn [fs out]. rewrite Hren. cbn [fs out]. by rewrite Hwrite.
  - rewrite lookup_in by done.
    change (Path.parent backup_path) with (Path.parent config_path).
    rewrite Hget3. cbn [mbind option_bind].
    by rewrite assoc_snoc_ne.
  - rewrite file_at_files_at by done. unfold files_at. rewrite Hget3.
    cbn [fmap option_fmap option_map mbind option_bind].
    by apply assoc_snoc_new.
Qed.

(** With a backup in place the generator does nothing. *)
Lemma update_config_ts_saved w :
  is_Some (Fs.lookup backup_path (fs w)) → update_config_ts w = (Ok tt, w).
Proof.
  intros Hb. unfold update_config_ts, bind, path_exists. rewrite backup_path_eq.
  destruct (Fs.exists_ config_path (fs w)); [|done].
  by rewrite (proj2 (exists_true _ _)).
Qed.

(** Without a configuration it does nothing either. *)
Lemma update_config_ts_absent w :
  Fs.lookup config_path (fs w) = None → update_config_ts w = (Ok tt, w).
Proof.
  intros Hc. unfold update_config_ts, bind, path_exists.
  by rewrite (proj2 (exists_false _ _)).
Qed.

(** *** Commands that leave a path alone *)

Lemma keeps_ret {A} p (a : A) : keeps p (ret a).
Proof. done. Qed.

Lemma keeps_print p line : keeps p (print line).
Proof. done. Qed.

Lemma keeps_path_exists p q : keeps p (path_exists q).
Proof. done. Qed.

Lemma keeps_bind {A B} p (c : M A) (k : A → M B) :
  keeps p c → (∀ a, keeps p (k a)) → keeps p (bind c k).
Proof.
  intros Hc Hk w. unfold bind. specialize (Hc w).
  destruct (c w) as [[a|msg] w']; cbn [snd] in *; [|done].
  by rewrite Hk.
Qed.

Lemma keeps_write p q s : ¬ q `prefix_of` p → keeps p (on_fs (Fs.write q s)).
Proof.
  intros Hq w. unfold on_fs. pose proof (write_frame q s (fs w) p Hq) as H.
  by destruct (Fs.write q s (fs w)).
Qed.

Lemma keeps_rename p src dst :
  dst ≠ [] → ¬ src `prefix_of` p → ¬ dst `prefix_of` p →
  keeps p (on_fs (Fs.rename src dst)).
Proof.
  intros Hdst H1 H2 w. unfold on_fs.
  pose proof (rename_frame src dst (fs w) p Hdst H1 H2) as H.
  by destruct (Fs.rename src dst (fs w)).
Qed.

Lemma keeps_create_env_template p :
  ¬ [".env.template"] `prefix_of` p → keeps p create_env_template.
Proof.
  intros H. apply keeps_bind; [by apply keeps_write|]. intros _. apply keeps_print.
Qed.

Lemma keeps_create_setup_script p :
  ¬ ["setup-project.sh"] `prefix_of` p → keeps p create_setup_script.
Proof.
  intros H. apply keeps_bind; [by apply keeps_write|]. intros _. apply keeps_print.
Qed.

Lemma keeps_update_config_ts p :
  ¬ config_path `prefix_of` p → ¬ backup_path `prefix_of` p →
  keeps p update_config_ts.
Proof.
  intros H1 H2. unfold update_config_ts. rewrite backup_path_eq.
  apply keeps_bind; [apply keeps_path_exists|]. intros [|]; [|apply keeps_ret].
  apply keeps_bind; [apply keeps_path_exists|]. intros [|]; [apply keeps_ret|].
  cbn [negb]. apply keeps_bind; [by apply keeps_rename|]. intros _.
  apply keeps_bind; [by apply keeps_write|]. intros _. apply keeps_print.
Qed.

Lemma keeps_keeps_file {A} p f (c : M A) : keeps p c → keeps_file p f c.
Proof. intros H w Hf. by rewrite H. Qed.

Lemma keeps_file_bind {A B} p f (c : M A) (k : A → M B) :
  keeps_file p f c → (∀ a, keeps_file p f (k a)) → keeps_file p f (bind c k).
Proof.
  intros Hc Hk w Hf. unfold bind. specialize (Hc w Hf).
  destruct (c w) as [[a|msg] w']; cbn [snd] in *; [|done].
  by apply Hk.
Qed.

(** Once its backup is a file, the configuration generator leaves it. *)
Lemma keeps_file_backup f : keeps_file backup_path f update_config_ts.
Proof.
  intros w Hf. rewrite update_config_ts_saved; [done|].
  unfold Fs.file_at in Hf. by destruct (Fs.lookup backup_path (fs w)).
Qed.

(** The walk leaves a file that lies under a pruned directory or that
    the loop body hands back as it was. *)
Lemma keeps_file_process_files p f :
  under_pruned p = true ∨ v_file (visit_path p f) = f →
  keeps_file p f process_files.
Proof.
  intros H w Hf. unfold process_files. cbn [snd fs].
  rewrite file_at_walk, Hf. cbn [fmap option_fmap option_map app].
  destruct H as [->| ->]; [done|]. by destruct (under_pruned p).
Qed.

(** A whole run leaves a file that is none of the generated ones, that
    the configuration generator leaves, and that the walk leaves. *)
Lemma keeps_file_main p f :
  ¬ [".env.template"] `prefix_of` p → ¬ ["setup-project.sh"] `prefix_of` p →
  keeps_file p f update_config_ts →
  under_pruned p = true ∨ v_file (visit_path p f) = f →
  keeps_file p f main.
Proof.
  intros Henv Hsh Hcfg Hwalk. unfold main.
  repeat first
    [ exact Hcfg
    | by apply keeps_file_process_files
    | by apply keeps_keeps_file, keeps_create_env_template
    | by apply keeps_keeps_file, keeps_create_setup_script
    | apply keeps_keeps_file, keeps_print
    | apply keeps_keeps_file, keeps_ret
    | apply keeps_file_bind; [|intros ?] ].
Qed.

(** A write at the root of the tree leaves the sub-directories. *)
Lemma write_root_lookup n s d p a b :
  p = a :: b :: drop 2 p →
  Fs.lookup p (Fs.write [n] s d).2 = Fs.lookup p d.
Proof.
  intros Hp. destruct d as [fs0 ds0].
  assert (∃ fs1, (Fs.write [n] s (Dir fs0 ds0)).2 = Dir fs1 ds0) as [fs1 ->].
  { unfold Fs.write. cbn [Path.parent removelast Fs.get_dir Fs.set_dir].
    destruct (assoc _ ds0); [by eexists|].
    destruct (assoc _ fs0) as [f|]; [|by eexists].
    destruct (wfail f) as [[? ?]|]; by eexists. }
  rewrite !lookup_in by (by rewrite Hp). rewrite Hp.
  change (Path.parent (a :: b :: drop 2 p)) with (a :: Path.parent (b :: drop 2 p)).
  done.
Qed.

(** A write at the root of the tree changes one name among its files. *)
Lemma write_root n s fs0 ds0 :
  ∃ fs1, (Fs.write [n] s (Dir fs0 ds0)).2 = Dir fs1 ds0
         ∧ ∀ m, m ≠ n → assoc m fs1 = assoc m fs0.
Proof.
  unfold Fs.write. cbn [Path.parent removelast Fs.get_dir Fs.set_dir].
  change (Path.name [n]) with n.
  destruct (assoc n ds0); [by eexists|].
  destruct (assoc n fs0) as [f|].
  - destruct (wfail f) as [[? ?]|]; (eexists; split; [done|]); intros m Hm;
      by rewrite assoc_set_ne.
  - eexists; split; [done|]. intros m Hm. by rewrite assoc_snoc_ne.
Qed.

Lemma write_root_frame n s d p :
  p ≠ [n] → Fs.file_at p (Fs.write [n] s d).2 = Fs.file_at p d.
Proof.
  intros Hp. unfold Fs.file_at. destruct p as [|a [|b r]].
  - done.
  - destruct d as [fs0 ds0]. destruct (write_root n s fs0 ds0) as (fs1 & -> & Hfs).
    unfold Fs.lookup. cbn [Path.parent removelast Fs.get_dir].
    change (Path.name [a]) with a.
    rewrite Hfs by (by intros ->). done.
  - by rewrite (write_root_lookup n s d (a :: b :: r) a b).
Qed.

Lemma keeps_root_write p n s : p ≠ [n] → keeps p (on_fs (Fs.write [n] s)).
Proof.
  intros Hp w. unfold on_fs. pose proof (write_root_frame n s (fs w) p Hp) as H.
  by destruct (Fs.write [n] s (fs w)).
Qed.

Lemma keeps_create_env_template_strict p :
  p ≠ [".env.template"] → keeps p create_env_template.
Proof.
  intros H. apply keeps_bind; [by apply keeps_root_write|]. intros _. apply keeps_print.
Qed.

Lemma keeps_create_setup_script_strict p :
  p ≠ ["setup-project.sh"] → keeps p create_setup_script.
Proof.
  intros H. apply keeps_bind; [by apply keeps_root_write|]. intros _. apply keeps_print.
Qed.

Lemma create_env_template_lookup w p a b :
  p = a :: b :: drop 2 p →
  Fs.lookup p (fs (create_env_template w).2) = Fs.lookup p (fs w).
Proof.
  intros Hp. unfold create_env_template, bind, on_fs, print.
  pose proof (write_root_lookup ".env.template" env_template (fs w) p a b Hp) as H.
  by destruct (Fs.write [".env.template"] env_template (fs w)) as [[[]|msg] d'].
Qed.

(** A path that leads to a directory, and a path with a file below it,
    exist. *)
Lemma get_dir_lookup q d : is_Some (Fs.get_dir q d) → is_Some (Fs.lookup q d).
Proof.
  destruct (decide (q = [])) as [->|Hq]; [by eexists|].
  rewrite lookup_in by done. rewrite (path_split q Hq) at 1. rewrite get_dir_app.
  destruct (Fs.get_dir (Path.parent q) d) as [[fs0 ds0]|]; [|by intros [? ?]].
  cbn [mbind option_bind Fs.get_dir]. destruct (assoc (Path.name q) fs0); [by eexists|].
  destruct (assoc (Path.name q) ds0); [by eexists|by intros [? ?]].
Qed.

Lemma file_at_below q p d f :
  q `prefix_of` p → Fs.file_at p d = Some f → is_Some (Fs.lookup q d).
Proof.
  intros [r ->] Hf. destruct r as [|x r].
  - rewrite app_nil_r in Hf. unfold Fs.file_at in Hf.
    destruct (Fs.lookup q d); [by eexists|done].
  - apply get_dir_lookup.
    assert (is_Some (Fs.get_dir (Path.parent (q ++ x :: r)) d)) as H.
    { rewrite file_at_files_at in Hf by (by destruct q). unfold files_at in Hf.
      destruct (Fs.get_dir _ d); [by eexists|done]. }
    rewrite parent_app in H by done. rewrite get_dir_app in H.
    destruct (Fs.get_dir q d); [by eexists|]. by destruct H.
Qed.

(** The configuration generator leaves every file that is not the
    configuration module or below it: its backup too, since a file at or
    below the backup path means that a backup exists. *)
Lemma keeps_file_update_config_ts p f :
  ¬ config_path `prefix_of` p → keeps_file p f update_config_ts.
Proof.
  intros Hc w Hf. destruct (Fs.lookup backup_path (fs w)) as [e|] eqn:Hb.
  - rewrite update_config_ts_saved; [done|by rewrite Hb].
  - rewrite keeps_update_config_ts; [done..|]. intros Hpre.
    destruct (file_at_below _ _ _ _ Hpre Hf) as [e He]. congruence.
Qed.

Lemma bind_post {A B} (I R Q : world → Prop) (c : M A) (k : A → M B) :
  (∀ w, I w → R (c w).2) → (∀ w, R w → Q w) → (∀ a w, R w → Q (k a w).2) →
  ∀ w, I w → Q (bind c k w).2.
Proof.
  intros Hc HRQ Hk w Hw. unfold bind. specialize (Hc w Hw).
  destruct (c w) as [[a|msg] w1]; cbn [snd] in *; [by apply Hk|by apply HRQ].
Qed.

(** A whole run leaves a file that the walk leaves, unless it is the
    environment template, the setup script or, in a tree without a
    backup, the configuration module or a file below it. *)
Lemma main_keeps_file p f w :
  p ≠ [".env.template"] → p ≠ ["setup-project.sh"] →
  ¬ config_path `prefix_of` p ∨ is_Some (Fs.lookup backup_path (fs w)) →
  under_pruned p = true ∨ v_file (visit_path p f) = f →
  Fs.file_at p (fs w) = Some f → Fs.file_at p (fs (main w).2) = Some f.
Proof.
  intros Henv Hsh Hcfg Hwalk Hf.
  set (I := λ w : world,
         Fs.file_at p (fs w) = Some f
         ∧ (¬ config_path `prefix_of` p ∨ is_Some (Fs.lookup backup_path (fs w)))).
  set (Q := λ w : world, Fs.file_at p (fs w) = Some f).
  assert (∀ w, I w → Q w) as HIQ by (by intros ? [? ?]).
  cut (∀ w, I w → Q (main w).2); [intros H; by apply H|].
  unfold main.
  apply (bind_post I I Q); [done|done|intros _].
  apply (bind_post I I Q); [done|done|intros _].
  apply (bind_post I I Q); [|done|intros _].
  { intros w0 [H1 H2]. split.
    - by rewrite keeps_create_env_template_strict.
    - destruct H2 as [H2|H2]; [by left|right].
      by rewrite (create_env_template_lookup w0 backup_path "lib" "config.ts.original"). }
  apply (bind_post I Q Q); [|done|intros _].
  { intros w0 [H1 [H2|H2]].
    - by apply keeps_file_update_config_ts.
    - by rewrite update_config_ts_saved. }
  subst Q. cbv beta.
  repeat first
    [ by apply keeps_file_process_files
    | by apply keeps_keeps_file, keeps_create_setup_script_strict
    | apply keeps_keeps_file, keeps_print
    | apply keeps_keeps_file, keeps_ret
    | apply keeps_file_bind; [|intros ?] ].
Qed.

End Generators.

(** ** The loop body *)

Section Visit.

Implicit Types (p root : Path) (f : file) (handler : list (string * string)).

Lemma visit_path_unfold p f :
  p ≠ [] →
  visit_path p f
  = if should_skip p then untouched f
    else match file_handlers !! Str.lower (Path.suffix p) with
         | Some handler => replace_in_file p handler f
         | None => untouched f
         end.
Proof.
  intros Hp. unfold visit_path, visit. by rewrite <- path_split.
Qed.

Lemma pruned_dirs_skip : pruned_dirs ⊆ SKIP_PATTERNS.
Proof. by apply (bool_decide_unpack _). Qed.

(** A path in which the name of a pruned directory occurs is skipped. *)
Lemma should_skip_pruned_name p pattern :
  pattern ∈ pruned_dirs → occurs_in pattern (Path.str p) → should_skip p = true.
Proof.
  intros Hin Hocc. apply should_skip_true. exists pattern.
  split; [by apply pruned_dirs_skip|done].
Qed.

Lemma replace_in_file_no_key p handler f content :
  data f = Text content →
  (∀ old, old ∈ keys handler → ¬ occurs_in old content) →
  replace_in_file p handler f = untouched f.
Proof.
  intros Hd Hkeys. unfold replace_in_file. rewrite Hd.
  rewrite substitute_absent; [by rewrite bool_decide_false by (by intros [])|].
  intros k Hk. by apply contains_false, Hkeys.
Qed.

Lemma visit_nothing_to_replace p f :
  p ≠ [] → nothing_to_replace p f → visit_path p f = untouched f.
Proof.
  intros Hp H. rewrite visit_path_unfold by done.
  destruct (should_skip p); [done|].
  destruct H as [->|(handler & content & -> & Hd & Hkeys)]; [done|].
  by eapply replace_in_file_no_key.
Qed.

(** The condition on a text, tested key by key. *)
Lemma nothing_to_replace_test p handler content :
  file_handlers !! Str.lower (Path.suffix p) = Some handler →
  forallb (λ old, negb (Str.contains old content)) (keys handler) = true →
  nothing_to_replace p (writable content).
Proof.
  intros Hh Hall. right. exists handler, content. split_and!; [done..|].
  intros old Hold. apply contains_false.
  rewrite forallb_forall in Hall. apply negb_true_iff, Hall.
  by apply list_elem_of_In.
Qed.

Lemma file_at_nonempty p d f : Fs.file_at p d = Some f → p ≠ [].
Proof. by intros H ->. Qed.

End Visit.

(** ** The tree walk and the run *)

(** C4: a file whose path holds the name of a pruned directory
    (node_modules, .git, .next, dist, build) anywhere in its string is
    handed back by the loop body as it was; the walk enters the loop
    body only for files with no pruned name among their directories, so
    the directories of those names are never descended into; and every
    such file is the same after the walk, and, when it is none of the
    files the generators write, after the whole run. *)
Theorem pruned_paths_untouched :
  (∀ root fname f pattern,
     pattern ∈ pruned_dirs → occurs_in pattern (Path.str (root ++ [fname])) →
     should_skip (root ++ [fname]) = true ∧ visit root fname f = untouched f)
  ∧ (∀ d p n,
       p ∈ w_seen (walk [] d) → n ∈ Path.parent p → n ∉ pruned_dirs)
  ∧ (∀ d p f,
       Fs.file_at p d = Some f →
       (∃ n, n ∈ Path.parent p ∧ n ∈ pruned_dirs)
       ∨ (∃ pattern, pattern ∈ pruned_dirs ∧ occurs_in pattern (Path.str p)) →
       Fs.file_at p (w_tree (walk [] d)) = Some f
       ∧ (¬ generated p → ∀ out, Fs.file_at p (fs (main (World d out)).2) = Some f)).
Proof.
  assert (∀ p, (∃ n, n ∈ Path.parent p ∧ n ∈ pruned_dirs) ↔ under_pruned p = true)
    as Hunder.
  { intros p. unfold under_pruned. rewrite existsb_exists.
    split; intros (n & Hn & Hp); exists n.
    - split; [by apply list_elem_of_In|by apply bool_decide_eq_true].
    - split; [by apply list_elem_of_In|by apply bool_decide_eq_true in Hp]. }
  assert (∀ p f,
            p ≠ [] →
            (∃ n, n ∈ Path.parent p ∧ n ∈ pruned_dirs)
            ∨ (∃ pattern, pattern ∈ pruned_dirs ∧ occurs_in pattern (Path.str p)) →
            under_pruned p = true ∨ v_file (visit_path p f) = f) as Hleft.
  { intros p f Hp [H|(pattern & Hin & Hocc)]; [left; by apply Hunder|right].
    rewrite visit_path_unfold by done.
    by rewrite (should_skip_pruned_name p pattern). }
  split_and!.
  - intros root fname f pattern Hin Hocc.
    pose proof (should_skip_pruned_name _ _ Hin Hocc) as Hskip.
    split; [done|]. unfold visit. by rewrite Hskip.
  - intros d p n Hseen Hn Hpruned.
    destruct (walk_visits d) as (Hs & _ & _). rewrite Hs in Hseen.
    unfold visits in Hseen. rewrite map_map in Hseen.
    apply list_elem_of_fmap in Hseen as ([p' f] & -> & Hin).
    apply list_elem_of_filter in Hin as [Hnot _]. cbn [fst] in *.
    assert (under_pruned p' = true) by (apply Hunder; eauto). congruence.
  - intros d p f Hf Hp. pose proof (file_at_nonempty _ _ _ Hf) as Hne.
    pose proof (Hleft p f Hne Hp) as Hkeep. split.
    + by apply (keeps_file_process_files p f Hkeep (World d [])).
    + intros Hgen out. apply keeps_file_main; [..|done|done].
      * intros H. apply Hgen. by left.
      * intros H. apply Hgen. right. by left.
      * apply keeps_keeps_file, keeps_update_config_ts; intros H; apply Hgen.
        -- right. right. by left.
        -- right. right. by right.
Qed.

(** A tree with a dependency directory, a version-control directory
    and a file whose name merely holds the word build: the walk sees none
    of the files below the two directories and leaves all three files. *)
Lemma pruned_paths_untouched_witness :
  let d := Dir [("rebuild.ts", writable "nda-analyzer")]
               [("node_modules", Dir [] [("pkg", Dir [("index.js", writable "nda-analyzer")] [])]);
                ("src", Dir [("app.ts", writable "nda-analyzer")]
                            [(".git", Dir [("hook.sh", writable "nda-analyzer")] [])])] in
  visit [] "rebuild.ts" (writable "nda-analyzer") = untouched (writable "nda-analyzer")
  ∧ ("src" ∉ pruned_dirs)
  ∧ Fs.file_at ["node_modules"; "pkg"; "index.js"] (w_tree (walk [] d))
    = Some (writable "nda-analyzer")
  ∧ Fs.file_at ["src"; ".git"; "hook.sh"] (fs (main (World d [])).2)
    = Some (writable "nda-analyzer").
Proof.
  intros d. destruct pruned_paths_untouched as (Hbody & Hseen & Hfile).
  split_and!.
  - apply (Hbody [] "rebuild.ts" _ "build"); [by apply (bool_decide_unpack _)|].
    by apply contains_spec.
  - apply (Hseen d ["src"; "app.ts"] "src").
    + by apply (bool_decide_unpack _).
    + by apply (bool_decide_unpack _).
  - apply (Hfile d ["node_modules"; "pkg"; "index.js"]); [done|].
    left. exists "node_modules". split; by apply (bool_decide_unpack _).
  - apply (Hfile d ["src"; ".git"; "hook.sh"] (writable "nda-analyzer")); [done| |].
    + left. exists ".git". split; by apply (bool_decide_unpack _).
    + intros [H|[H|[H|H]]]; by apply (bool_decide_pack _) in H.
Defined.

(** C5, as the code has it: the walk leaves every file whose extension
    has no entry in the dispatch table, and every file whose extension
    has one while its text holds none of the keys of that entry.  For
    such a file the loop body writes nothing, prints nothing and returns
    false, so that it adds nothing to the output and the count of the
    walk; the file is the same after the walk.  It is the same after the
    whole run, whether the run returns or not, unless it is one of the
    files the run replaces whatever they hold: .env.template,
    setup-project.sh and, in a tree without lib/config.ts.original,
    lib/config.ts or a file below a directory of that name. *)
Theorem walk_frame (d : dir) (p : Path) (f : file) :
  Fs.file_at p d = Some f →
  nothing_to_replace p f →
  visit_path p f = untouched f
  ∧ Fs.file_at p (w_tree (walk [] d)) = Some f
  ∧ w_out (walk [] d) = concat (map (λ pv : Path * visited, v_out pv.2) (visits d))
  ∧ w_count (walk [] d)
    = length (filter (λ pv : Path * visited, v_updated pv.2 = true) (visits d))
  ∧ (¬ overwritten d p → ∀ out, Fs.file_at p (fs (main (World d out)).2) = Some f).
Proof.
  intros Hf Hnothing. pose proof (file_at_nonempty _ _ _ Hf) as Hne.
  pose proof (visit_nothing_to_replace p f Hne Hnothing) as Hvisit.
  assert (under_pruned p = true ∨ v_file (visit_path p f) = f) as Hkeep.
  { right. by rewrite Hvisit. }
  destruct (walk_visits d) as (_ & Hout & Hcount). split_and!; [done| |done..|].
  - by apply (keeps_file_process_files p f Hkeep (World d [])).
  - intros Hover out. apply main_keeps_file; [..|done|done].
    + intros ->. apply Hover. by left.
    + intros ->. apply Hover. right. by left.
    + cbn [fs]. destruct (Fs.lookup backup_path d) as [e|] eqn:Hb; [by right|].
      left. intros Hpre. apply Hover. right. by right.
Qed.

(** A style sheet, which the table does not list, a script without any
    of the names, and a configuration module with a backup beside it. *)
Lemma walk_frame_witness :
  let d := Dir [("main.css", writable "nda-analyzer"); ("run.sh", writable "echo hello")]
               [("lib", Dir [("config.ts", writable "export {};");
                             ("config.ts.original", writable "export const old = 1;")] [])] in
  Fs.file_at ["main.css"] (fs (main (World d [])).2) = Some (writable "nda-analyzer")
  ∧ Fs.file_at ["run.sh"] (fs (main (World d [])).2) = Some (writable "echo hello")
  ∧ Fs.file_at config_path (fs (main (World d [])).2) = Some (writable "export {};")
  ∧ Fs.file_at backup_path (fs (main (World d [])).2)
    = Some (writable "export const old = 1;")
  ∧ visit_path ["run.sh"] (writable "echo hello") = untouched (writable "echo hello").
Proof.
  intros d.
  assert (∀ (q : Path) content,
            file_handlers !! Str.lower (Path.suffix q) = Some replacements →
            forallb (λ old, negb (Str.contains old content)) (keys replacements) = true →
            nothing_to_replace q (writable content)) as Hclean.
  { intros q content. apply nothing_to_replace_test. }
  assert (∀ q : Path, length q = 1 → q ≠ [".env.template"] → q ≠ ["setup-project.sh"] →
                      ¬ overwritten d q) as Hroot.
  { intros q Hlen H1 H2 [?|[?|[[r ->] _]]]; done. }
  split_and!.
  - apply (walk_frame d ["main.css"] (writable "nda-analyzer")); [done|by left|].
    by apply Hroot.
  - apply (walk_frame d ["run.sh"] (writable "echo hello")); [done|by apply Hclean|].
    by apply Hroot.
  - apply (walk_frame d config_path (writable "export {};"));
      [done|by apply Hclean|].
    by intros [?|[?|[_ ?]]].
  - apply (walk_frame d backup_path (writable "export const old = 1;")); [done|by left|].
    by intros [?|[?|[_ ?]]].
  - apply (walk_frame d ["run.sh"] (writable "echo hello")); [done|by apply Hclean].
Defined.

(** Read of the whole run, the frame property fails on each of the
    files excepted, and on no other.  In a tree with an environment
    template, a setup script and a configuration module of its own and
    no backup, the extension [.template] is not in the table and the
    script and the module hold none of the keys of their entry; the run
    overwrites the first two and replaces the third.  Where lib/config.ts
    is a directory, the run moves it to the name of the backup, and its
    files with it. *)
Lemma run_frame_counterexample :
  let d := Dir [(".env.template", writable "PORT=8080");
                ("setup-project.sh", writable "echo hello")]
               [("lib", Dir [("config.ts", writable "export const config = {};")] [])] in
  let d' := Dir [] [("lib", Dir [] [("config.ts", Dir [("notes.txt", writable "")] [])])] in
  (main (World d [])).1 = Ok 0
  ∧ (Fs.file_at [".env.template"] d = Some (writable "PORT=8080")
     ∧ nothing_to_replace [".env.template"] (writable "PORT=8080")
     ∧ Fs.file_at [".env.template"] (fs (main (World d [])).2)
       = Some (writable env_template))
  ∧ (Fs.file_at ["setup-project.sh"] d = Some (writable "echo hello")
     ∧ nothing_to_replace ["setup-project.sh"] (writable "echo hello")
     ∧ Fs.file_at ["setup-project.sh"] (fs (main (World d [])).2)
       = Some (writable setup_content))
  ∧ (Fs.file_at config_path d = Some (writable "export const config = {};")
     ∧ nothing_to_replace config_path (writable "export const config = {};")
     ∧ Fs.file_at config_path (fs (main (World d [])).2)
       = Some (writable config_content))
  ∧ ¬ run_frame_claim d
  ∧ (main (World d' [])).1 = Ok 0
  ∧ (Fs.file_at (config_path ++ ["notes.txt"]) d' = Some (writable "")
     ∧ nothing_to_replace (config_path ++ ["notes.txt"]) (writable "")
     ∧ Fs.file_at (config_path ++ ["notes.txt"]) (fs (main (World d' [])).2) = None
     ∧ Fs.file_at (backup_path ++ ["notes.txt"]) (fs (main (World d' [])).2)
       = Some (writable ""))
  ∧ ¬ run_frame_claim d'.
Proof.
  intros d d'.
  assert (nothing_to_replace [".env.template"] (writable "PORT=8080")) as Henv
    by (by left).
  assert (∀ (q : Path) content,
            file_handlers !! Str.lower (Path.suffix q) = Some replacements →
            forallb (λ old, negb (Str.contains old content)) (keys replacements) = true →
            nothing_to_replace q (writable content)) as Hclean.
  { intros q content. apply nothing_to_replace_test. }
  assert (nothing_to_replace (config_path ++ ["notes.txt"]) (writable "")) as Htxt
    by (by left).
  split_and!; try done.
  - by apply Hclean.
  - by apply Hclean.
  - intros Hclaim. by specialize (Hclaim [".env.template"] _ eq_refl Henv).
  - intros Hclaim. by specialize (Hclaim (config_path ++ ["notes.txt"]) _ eq_refl Htxt).
Qed.

(** ** The configuration generator *)

(** C2: with the configuration present and no backup, the generator
    renames the configuration to the backup name, lib/config.ts.original,
    and writes the new module under the old name; with a backup present
    it does nothing, however often it is run; so a second run leaves the
    backup that the first one made, and a whole run of the script leaves
    the backup file as well. *)
Theorem backup_created_once :
  Path.with_suffix config_path ".ts.original" = backup_path
  ∧ (∀ w e,
       Fs.lookup config_path (fs w) = Some e → Fs.lookup backup_path (fs w) = None →
       ∃ d' d'',
         Fs.rename config_path backup_path (fs w) = (Ok tt, d')
         ∧ Fs.write config_path config_content d' = (Ok tt, d'')
         ∧ update_config_ts w
           = (Ok tt, World d'' (out w ++ ["✓ Updated lib/config.ts"]))
         ∧ Fs.lookup backup_path d'' = Some e
         ∧ Fs.file_at config_path d'' = Some (writable config_content)
         ∧ update_config_ts (update_config_ts w).2 = (Ok tt, (update_config_ts w).2))
  ∧ (∀ w n,
       is_Some (Fs.lookup backup_path (fs w)) →
       update_config_ts w = (Ok tt, w) ∧ repeat_run update_config_ts n w = w)
  ∧ (∀ w f,
       Fs.file_at backup_path (fs w) = Some f →
       Fs.file_at backup_path (fs (main w).2) = Some f).
Proof.
  split_and!.
  - done.
  - intros w e He Hb.
    destruct (update_config_ts_first w e He Hb) as (d' & d'' & H1 & H2 & H3 & H4 & H5).
    exists d', d''. split_and!; [done..|].
    rewrite H3. cbn [snd]. apply update_config_ts_saved. cbn [fs]. by rewrite H4.
  - intros w n Hb. pose proof (update_config_ts_saved w Hb) as Hsaved.
    split; [done|]. induction n as [|n IH]; [done|].
    cbn [repeat_run]. by rewrite Hsaved.
  - intros w f. apply keeps_file_main.
    + intros H. by apply (bool_decide_pack _) in H.
    + intros H. by apply (bool_decide_pack _) in H.
    + apply keeps_file_backup.
    + by right.
Qed.

(** A first run on a tree with a configuration module, then two more. *)
Lemma backup_created_once_witness :
  let w := World (Dir [] [("lib", Dir [("config.ts", writable "export const old = 1;")] [])]) [] in
  let w1 := (update_config_ts w).2 in
  Fs.file_at backup_path (fs w1) = Some (writable "export const old = 1;")
  ∧ Fs.file_at config_path (fs w1) = Some (writable config_content)
  ∧ repeat_run update_config_ts 2 w1 = w1
  ∧ Fs.file_at backup_path (fs (main w1).2) = Some (writable "export const old = 1;").
Proof.
  intros w w1. destruct backup_created_once as (_ & Hfirst & Hagain & Hrun).
  destruct (Hfirst w (inl (writable "export const old = 1;")) eq_refl eq_refl)
    as (d' & d'' & _ & _ & Hw1 & Hb & Hc & _).
  assert (fs w1 = d'') as Hfs by (unfold w1; by rewrite Hw1).
  split_and!.
  - rewrite Hfs. unfold Fs.file_at. by rewrite Hb.
  - by rewrite Hfs.
  - apply Hagain. rewrite Hfs, Hb. by eexists.
  - apply Hrun. rewrite Hfs. unfold Fs.file_at. by rewrite Hb.
Defined.

(** ** The end-to-end scenario *)

Section Scenario.

Implicit Types (s x y : string) (d : dir) (p : Path) (f : file).

(** Replacing a key brings no occurrence of a pattern into a text that
    held none, when the replacement text is not empty and neither starts
    with a character of the pattern nor holds its first character. *)
Lemma replace_keeps_absent b pat a old n new s :
  Str.has_char n (String b pat) = false →
  Str.has_char b (String n new) = false →
  Str.contains (String b pat) s = false →
  Str.contains (String b pat) (Str.replace (String a old) (String n new) s) = false.
Proof.
  intros Hn Hb.
  apply (replace_ind a old (String n new)
           (λ s r, (∀ u, Str.startswith (String b pat) (u +:+ r) = true →
                         Str.startswith (String b pat) (u +:+ s) = true) ∧
                   (Str.contains (String b pat) s = false →
                    Str.contains (String b pat) r = false))).
  - done.
  - intros t r [_ Hr]. split.
    + intros u Hu. apply startswith_mono.
      rewrite str_app_cons in Hu. by eapply startswith_before_foreign.
    + intros Hs. rewrite contains_after_foreign by done. apply Hr.
      apply contains_false. intros Hocc. apply contains_false in Hs. apply Hs.
      apply (occurs_in_trans _ t); [done|]. exists (String a old), "".
      by rewrite str_app_nil_r.
  - intros c t r Hc [Hpre Hr]. split.
    + intros u Hu. rewrite <- str_app_snoc in Hu. apply Hpre in Hu.
      by rewrite str_app_snoc in Hu.
    + rewrite !(contains_unfold _ (String c _)), !orb_false_iff.
      intros [Hs Ht]. split; [|by apply Hr].
      destruct (Str.startswith (String b pat) (String c r)) eqn:E; [|done].
      apply (Hpre (String c "")) in E.
      change (Str.startswith (String b pat) (String c t) = true) in E. congruence.
Qed.

(** No text holds the bare name after the general map is applied. *)
Lemma substitute_removes_bare_name s :
  Str.contains "nda-analyzer" (substitute replacements s) = false.
Proof.
  rewrite replacements_core. unfold core_replacements.
  rewrite !substitute_cons. cbn [substitute fold_left].
  do 2 (apply replace_keeps_absent; [done..|]). apply bare_name_removed.
Qed.

(** A text that holds the bare name is changed by the general map. *)
Lemma substitute_changes s :
  occurs_in "nda-analyzer" s → substitute replacements s ≠ s.
Proof.
  intros Hocc Heq. apply contains_spec in Hocc.
  pose proof (substitute_removes_bare_name s) as H. rewrite Heq in H. congruence.
Qed.

Lemma occurs_in_quoted x y :
  occurs_in "nda-analyzer" (x +:+ Str.quoted "nda-analyzer" +:+ y).
Proof.
  exists (x +:+ Str.dq), (Str.dq +:+ y). unfold Str.quoted.
  by rewrite !str_app_assoc.
Qed.

(** The loop body on a writable source file that holds the bare name. *)
Lemma visit_source_file p f content :
  p ≠ [] → should_skip p = false →
  file_handlers !! Str.lower (Path.suffix p) = Some replacements →
  data f = Text content → wfail f = None →
  occurs_in "nda-analyzer" content →
  visit_path p f
  = Visited (writable (substitute replacements content)) [updated_line p] true.
Proof.
  intros Hp Hskip Hext Hd Hw Hocc. rewrite visit_path_unfold by done.
  rewrite Hskip, Hext. unfold replace_in_file. rewrite Hd, Hw.
  by rewrite bool_decide_true by (by apply substitute_changes).
Qed.

Lemma assoc_elem_of {A} n (a : A) (l : list (string * A)) :
  assoc n l = Some a → (n, a) ∈ l.
Proof.
  induction l as [|[k b] l IH]; [done|]. cbn [assoc].
  destruct (String.eqb_spec n k) as [->|]; [intros [= ->]; by left|].
  intros H. right. by apply IH.
Qed.

(** The file a path names is among the files of the tree. *)
Lemma file_at_files_of p : ∀ d f, Fs.file_at p d = Some f → (p, f) ∈ files_of d.
Proof.
  induction p as [|n p IH]; intros [files dirs] f Hf; [done|].
  rewrite file_at_files_at in Hf by done. unfold files_at in Hf.
  cbn [files_of]. apply elem_of_app. destruct p as [|m p].
  - left. cbn in Hf. apply assoc_elem_of in Hf.
    apply list_elem_of_fmap. by exists (n, f).
  - right. rewrite parent_cons, name_cons in Hf by done.
    cbn [Fs.get_dir] in Hf. destruct (assoc n dirs) as [sub|] eqn:Hsub; [|done].
    apply assoc_elem_of in Hsub.
    apply list_elem_of_In, in_concat.
    exists (map (λ pf : Path * file, (n :: pf.1, pf.2)) (files_of sub)). split.
    + apply in_map_iff. exists (n, sub). split; [done|by apply list_elem_of_In].
    + apply in_map_iff. exists (m :: p, f). split; [done|].
      apply list_elem_of_In, IH. by rewrite file_at_files_at.
Qed.

Lemma file_at_reached p d f :
  Fs.file_at p d = Some f → under_pruned p = false → (p, f) ∈ reached d.
Proof.
  intros Hf Hp. apply list_elem_of_filter. split; [done|].
  by apply file_at_files_of.
Qed.

(** A command that returns has run each of its two parts. *)
Lemma bind_Ok {A B} (c : M A) (k : A → M B) w b w' :
  bind c k w = (Ok b, w') → ∃ a w1, c w = (Ok a, w1) ∧ k a w1 = (Ok b, w').
Proof.
  unfold bind. destruct (c w) as [[a|msg] w1]; [|done]. intros H. by exists a, w1.
Qed.

Lemma keeps_step {A} p (c : M A) w a w1 :
  keeps p c → c w = (Ok a, w1) → Fs.file_at p (fs w1) = Fs.file_at p (fs w).
Proof. intros Hk Hc. specialize (Hk w). by rewrite Hc in Hk. Qed.

End Scenario.

(** C1: in a text, the project name between double quotes is rewritten
    by the [.ts] map, applied in its order, to the placeholder between
    double quotes, the texts around it being rewritten on their own.  On
    a writable file app.ts that holds it and that the path filter lets
    through, the loop body writes the new text back, reports the file and
    returns true.  When no directory on its way is pruned, the file holds
    the new text after the walk, and the count of the walk is 1 when no
    other reached file is updated; after any run that returns, the file
    holds the new text and is counted.  In the scenario of the
    specification the run returns 1 and app.ts holds the placeholder
    between double quotes. *)
Theorem quoted_name_rewritten :
  (∀ x y,
     substitute replacements (x +:+ Str.quoted "nda-analyzer" +:+ y)
     = substitute replacements x +:+ Str.quoted "${PROJECT_NAME}"
         +:+ substitute replacements y)
  ∧ (∀ d p f x y,
       Path.name p = "app.ts" → Fs.file_at p d = Some f →
       data f = Text (x +:+ Str.quoted "nda-analyzer" +:+ y) → wfail f = None →
       should_skip p = false →
       let f' := writable (substitute replacements x +:+ Str.quoted "${PROJECT_NAME}"
                             +:+ substitute replacements y) in
       visit_path p f = Visited f' [updated_line p] true
       ∧ (under_pruned p = false →
          Fs.file_at p (w_tree (walk [] d)) = Some f'
          ∧ (∀ l1 l2,
               reached d = l1 ++ (p, f) :: l2 →
               (∀ pf, pf ∈ l1 ++ l2 → v_updated (visit_path pf.1 pf.2) = false) →
               w_count (walk [] d) = 1)
          ∧ (¬ generated p →
             ∀ out n w',
               main (World d out) = (Ok n, w') →
               Fs.file_at p (fs w') = Some f' ∧ 1 ≤ n)))
  ∧ (let w := main (World (Dir [("app.ts", writable (Str.quoted "nda-analyzer"))] []) []) in
     w.1 = Ok 1
     ∧ Fs.file_at ["app.ts"] (fs w.2) = Some (writable (Str.quoted "${PROJECT_NAME}"))
     ∧ updated_line ["app.ts"] ∈ out w.2
     ∧ "   Updated 1 files" ∈ out w.2).
Proof.
  split_and!.
  - apply substitute_quoted_name.
  - intros d p f x y Hname Hf Hd Hw Hskip f'.
    pose proof (file_at_nonempty _ _ _ Hf) as Hp.
    assert (file_handlers !! Str.lower (Path.suffix p) = Some replacements) as Hext.
    { unfold Path.suffix. by rewrite Hname. }
    assert (visit_path p f = Visited f' [updated_line p] true) as Hvisit.
    { unfold f'. rewrite <- substitute_quoted_name.
      apply visit_source_file; try done. apply occurs_in_quoted. }
    split; [done|]. intros Hunder.
    assert (∀ d0, Fs.file_at p d0 = Some f →
                  Fs.file_at p (w_tree (walk [] d0)) = Some f') as Hwalk.
    { intros d0 Hf0. rewrite file_at_walk, Hf0.
      cbn [fmap option_fmap option_map app]. by rewrite Hunder, Hvisit. }
    split_and!.
    + by apply Hwalk.
    + intros l1 l2 Hreached Hothers.
      destruct (walk_visits d) as (_ & _ & ->). unfold visits. rewrite Hreached.
      rewrite map_app, filter_app, length_app. cbn [map].
      rewrite filter_cons_True by (cbn [fst snd]; by rewrite Hvisit).
      assert (∀ l : list (Path * file),
                (∀ pf, pf ∈ l → v_updated (visit_path pf.1 pf.2) = false) →
                filter (λ pv : Path * visited, v_updated pv.2 = true)
                       (map (λ pf : Path * file, (pf.1, visit_path pf.1 pf.2)) l) = [])
        as Hnone.
      { induction l as [|pf l IH]; intros Hl; [done|]. cbn [map].
        rewrite filter_cons_False.
        - apply IH. intros pf' ?. apply Hl. by right.
        - cbn [snd]. rewrite Hl by (by left). done. }
      rewrite !Hnone; [done|intros pf ?; apply Hothers, elem_of_app; auto..].
    + intros Hgen out n w' Hmain. unfold main in Hmain.
      apply bind_Ok in Hmain as ([] & w1 & H1 & Hmain).
      apply bind_Ok in Hmain as ([] & w2 & H2 & Hmain).
      apply bind_Ok in Hmain as ([] & w3 & H3 & Hmain).
      apply bind_Ok in Hmain as ([] & w4 & H4 & Hmain).
      apply bind_Ok in Hmain as ([] & w5 & H5 & Hmain).
      apply bind_Ok in Hmain as (m & w6 & H6 & Hmain).
      apply bind_Ok in Hmain as ([] & w7 & H7 & Hmain).
      apply bind_Ok in Hmain as ([] & w8 & H8 & Hmain).
      apply bind_Ok in Hmain as ([] & w9 & H9 & Hmain).
      apply bind_Ok in Hmain as ([] & w10 & H10 & Hmain).
      apply bind_Ok in Hmain as ([] & w11 & H11 & Hmain).
      injection Hmain as <- <-.
      assert (¬ [".env.template"] `prefix_of` p) as Ne1
        by (intros H; apply Hgen; by left).
      assert (¬ ["setup-project.sh"] `prefix_of` p) as Ne2
        by (intros H; apply Hgen; right; by left).
      assert (¬ config_path `prefix_of` p) as Ne3
        by (intros H; apply Hgen; right; right; by left).
      assert (¬ backup_path `prefix_of` p) as Ne4
        by (intros H; apply Hgen; right; right; by right).
      assert (Fs.file_at p (fs w5) = Some f) as Hf5.
      { rewrite (keeps_step _ _ _ _ _ (keeps_print _ _) H5).
        rewrite (keeps_step _ _ _ _ _ (keeps_update_config_ts _ Ne3 Ne4) H4).
        rewrite (keeps_step _ _ _ _ _ (keeps_create_env_template _ Ne1) H3).
        rewrite (keeps_step _ _ _ _ _ (keeps_print _ _) H2).
        by rewrite (keeps_step _ _ _ _ _ (keeps_print _ _) H1). }
      unfold process_files in H6. injection H6 as <- <-. split.
      * rewrite (keeps_step _ _ _ _ _ (keeps_print _ _) H11).
        rewrite (keeps_step _ _ _ _ _ (keeps_print _ _) H10).
        rewrite (keeps_step _ _ _ _ _ (keeps_print _ _) H9).
        rewrite (keeps_step _ _ _ _ _ (keeps_print _ _) H8).
        rewrite (keeps_step _ _ _ _ _ (keeps_create_setup_script _ Ne2) H7).
        cbn [fs]. by apply Hwalk.
      * destruct (walk_visits (fs w5)) as (_ & _ & ->).
        assert ((p, Visited f' [updated_line p] true)
                ∈ filter (λ pv : Path * visited, v_updated pv.2 = true) (visits (fs w5)))
          as Hin.
        { apply list_elem_of_filter. split; [done|]. unfold visits.
          apply list_elem_of_fmap. exists (p, f). cbn [fst snd].
          split; [by rewrite Hvisit|]. by apply file_at_reached. }
        destruct (filter _ (visits (fs w5))); [by apply elem_of_nil in Hin|].
        cbn [length]. lia.
  - intros w. split_and!.
    + by vm_compute.
    + by vm_compute.
    + apply (bool_decide_unpack _). by vm_compute.
    + apply (bool_decide_unpack _). by vm_compute.
Qed.

(** A source file that imports by the quoted name, in a directory of
    sources, next to a file the walk leaves. *)
Lemma quoted_name_rewritten_witness :
  let content := "import x from " +:+ Str.quoted "nda-analyzer" +:+ ";" in
  let d := Dir [("notes.txt", writable "nda-analyzer")]
               [("src", Dir [("app.ts", writable content)] [])] in
  let f' := writable ("import x from " +:+ Str.quoted "${PROJECT_NAME}" +:+ ";") in
  visit ["src"] "app.ts" (writable content) = Visited f' [updated_line ["src"; "app.ts"]] true
  ∧ Fs.file_at ["src"; "app.ts"] (w_tree (walk [] d)) = Some f'
  ∧ w_count (walk [] d) = 1
  ∧ Fs.file_at ["src"; "app.ts"] (fs (main (World d [])).2) = Some f'.
Proof.
  intros content d f'.
  destruct quoted_name_rewritten as (_ & H & _).
  destruct (H d ["src"; "app.ts"] (writable content) "import x from " ";"
              eq_refl eq_refl eq_refl eq_refl eq_refl)
    as (Hvisit & Hrest).
  destruct (Hrest eq_refl) as (Hwalk & Hcount & Hrun).
  split_and!.
  - exact Hvisit.
  - exact Hwalk.
  - apply (Hcount [(["notes.txt"], writable "nda-analyzer")] []); [done|].
    intros pf Hpf. rewrite app_nil_r in Hpf.
    apply list_elem_of_singleton in Hpf as ->. done.
  - assert (¬ generated ["src"; "app.ts"]) as Hgen.
    { intros [G|[G|[G|G]]]; by apply (bool_decide_pack _) in G. }
    apply (Hrun Hgen [] 1 (main (World d [])).2). by vm_compute.
Defined.

(** * Further properties of the script *)

(** ** Maps that reach their steady state in one pass *)

Section Steady.

Implicit Types (s pat old new m r : string) (a n l c : ascii).

(** Past a text that ends in a character foreign to the pattern and
    does not hold the pattern, the search starts afresh. *)
Lemma contains_after_closed pat m l r :
  Str.has_char l pat = false →
  Str.contains pat (m +:+ String l "") = false →
  Str.contains pat ((m +:+ String l "") +:+ r) = Str.contains pat r.
Proof.
  intros Hl. induction m as [|c m IH].
  - change ("" +:+ String l "") with (String l "").
    change (String l "" +:+ r) with (String l r).
    rewrite !(contains_unfold _ (String l _)). intros [H _]%orb_false_iff.
    destruct pat as [|b pat]; [done|]. cbn [Str.startswith] in *.
    cbn [Str.has_char] in Hl. apply orb_false_iff in Hl as [Hlb _].
    by rewrite Ascii.eqb_sym, Hlb.
  - rewrite !str_app_cons, !(contains_unfold _ (String c _)).
    intros [H1 H2]%orb_false_iff. rewrite IH by done.
    destruct (Str.startswith pat (String c ((m +:+ String l "") +:+ r))) eqn:E; [|done].
    rewrite str_app_assoc in E. change (String l "" +:+ r) with (String l r) in E.
    rewrite <- str_app_cons in E. apply startswith_before_foreign in E; [|done].
    apply (startswith_mono _ _ (String l "")) in E.
    rewrite str_app_cons in E. congruence.
Qed.

(** One replacement leaves a text free of a pattern when the pattern
    is the key replaced, or was absent before, provided the replacement
    text neither holds the pattern nor begins or ends with one of its
    characters. *)
Lemma replace_clean pat a old n new m l s :
  String n new = m +:+ String l "" →
  Str.has_char n pat = false → Str.has_char l pat = false →
  Str.contains pat (String n new) = false →
  pat = String a old ∨ Str.contains pat s = false →
  Str.contains pat (Str.replace (String a old) (String n new) s) = false.
Proof.
  intros Hnew Hn Hl Hin.
  apply (replace_ind a old (String n new)
           (λ s r, (∀ u, Str.startswith pat (u +:+ r) = true →
                         Str.startswith pat (u +:+ s) = true) ∧
                   (pat = String a old ∨ Str.contains pat s = false →
                    Str.contains pat r = false))).
  - split; [done|]. intros [->|H]; [done|done].
  - intros t r [_ Hr]. split.
    + intros u Hu. apply startswith_mono.
      rewrite str_app_cons in Hu.
      by apply (startswith_before_foreign pat u n (new +:+ r)).
    + intros Hs. rewrite Hnew in *. rewrite contains_after_closed by done.
      apply Hr. destruct Hs as [->|Hs]; [by left|right].
      apply contains_false. intros Hocc. apply contains_false in Hs. apply Hs.
      apply (occurs_in_trans _ t); [done|]. exists (String a old), "".
      by rewrite str_app_nil_r.
  - intros c t r Hc [Hpre Hr]. split.
    + intros u Hu. rewrite <- str_app_snoc in Hu. apply Hpre in Hu.
      by rewrite str_app_snoc in Hu.
    + intros Hs.
      assert (Str.startswith pat (String c t) = false
              ∧ (pat = String a old ∨ Str.contains pat t = false)) as [H1 H2].
      { destruct Hs as [->|Hs]; [by split; [|left]|].
        rewrite contains_unfold in Hs. apply orb_false_iff in Hs as [? ?]. auto. }
      rewrite contains_unfold, (Hr H2), orb_false_r.
      destruct (Str.startswith pat (String c r)) eqn:E; [|done].
      apply (Hpre (String c "")) in E.
      change (Str.startswith pat (String c t) = true) in E. congruence.
Qed.

Lemma absent_super pat k s :
  occurs_in pat k → Str.contains pat s = false → Str.contains k s = false.
Proof.
  intros Hk Hs. apply contains_false. intros Hocc. apply contains_false in Hs.
  apply Hs. by eapply occurs_in_trans.
Qed.

Local Ltac clean m :=
  apply (replace_clean _ _ _ _ _ m "}"); [reflexivity..|].

Lemma replacements_clean s k :
  k ∈ keys replacements → Str.contains k (substitute replacements s) = false.
Proof.
  intros Hk. rewrite replacements_core. unfold core_replacements.
  rewrite !substitute_cons. cbn [substitute fold_left].
  assert (Str.contains "nda-analyzer"
            (Str.replace "nda_analyzer" "${PROJECT_NAME_UNDERSCORE}"
               (Str.replace "NDA Analyzer" "${PROJECT_DISPLAY_NAME}"
                  (Str.replace "nda-analyzer" "${PROJECT_NAME}" s))) = false) as H1.
  { clean "${PROJECT_NAME_UNDERSCORE". right.
    clean "${PROJECT_DISPLAY_NAME". right.
    clean "${PROJECT_NAME". by left. }
  unfold keys, replacements in Hk. cbn [map fst] in Hk.
  apply elem_of_cons in Hk as [->|Hk]; [done|].
  do 4 (apply elem_of_cons in Hk as [->|Hk];
        [apply (absent_super "nda-analyzer"); [by apply contains_spec|done]|]).
  apply elem_of_cons in Hk as [->|Hk].
  { clean "${PROJECT_NAME_UNDERSCORE". right.
    clean "${PROJECT_DISPLAY_NAME". by left. }
  apply elem_of_cons in Hk as [->|Hk].
  { clean "${PROJECT_NAME_UNDERSCORE". by left. }
  by apply elem_of_nil in Hk.
Qed.

Lemma md_replacements_clean s k :
  k ∈ keys md_replacements → Str.contains k (substitute md_replacements s) = false.
Proof.
  intros Hk. unfold md_replacements in *. rewrite !substitute_cons.
  cbn [substitute fold_left]. unfold keys in Hk. cbn [map fst] in Hk.
  apply elem_of_cons in Hk as [->|Hk].
  { clean "{PROJECT_DISPLAY_NAME". right. clean "{PROJECT_NAME". by left. }
  apply elem_of_cons in Hk as [->|Hk].
  { clean "{PROJECT_DISPLAY_NAME". by left. }
  by apply elem_of_nil in Hk.
Qed.

End Steady.

(** X1: one pass of the general map, and one pass of the Markdown map,
    leaves no occurrence of any key of the map in any text; a second
    pass therefore returns the text of the first. *)
Theorem general_maps_steady :
  ∀ content,
    ((∀ k, k ∈ keys replacements → ¬ occurs_in k (substitute replacements content))
     ∧ substitute replacements (substitute replacements content)
       = substitute replacements content)
    ∧ ((∀ k, k ∈ keys md_replacements →
             ¬ occurs_in k (substitute md_replacements content))
       ∧ substitute md_replacements (substitute md_replacements content)
         = substitute md_replacements content).
Proof.
  intros content. split; split.
  - intros k Hk. by apply contains_false, replacements_clean.
  - apply substitute_absent. intros k Hk. by apply replacements_clean.
  - intros k Hk. by apply contains_false, md_replacements_clean.
  - apply substitute_absent. intros k Hk. by apply md_replacements_clean.
Qed.

(** X2: the JSON map does not share that property.  Where the quoted
    name is followed by the bare name and a quote, the closing quote of
    the replacement joins them up into a new occurrence of the key, and
    a second pass rewrites the text again. *)
Theorem json_map_cascades :
  ∃ content,
    occurs_in (Str.quoted "nda-analyzer") (substitute json_replacements content)
    ∧ substitute json_replacements (substitute json_replacements content)
      ≠ substitute json_replacements content.
Proof.
  exists (Str.quoted "nda-analyzer" +:+ "nda-analyzer" +:+ Str.dq).
  split; [by apply contains_spec|]. by vm_compute.
Qed.

(** ** The filter and the pruning *)

Section Inherit.

Implicit Types (p q : Path) (n pattern sep : string) (d : dir) (f : file).

Lemma occurs_in_refl s : occurs_in s s.
Proof. exists "", "". by rewrite str_app_nil_r. Qed.

Lemma occurs_in_app_l s t u : occurs_in s t → occurs_in s (t +:+ u).
Proof.
  intros (a & b & ->). exists a, (b +:+ u). by rewrite !str_app_assoc.
Qed.

Lemma occurs_in_app_r s t u : occurs_in s u → occurs_in s (t +:+ u).
Proof.
  intros (a & b & ->). exists (t +:+ a), b. by rewrite !str_app_assoc.
Qed.

(** Each part of a path occurs in the string of the path. *)
Lemma occurs_in_concat sep n p : n ∈ p → occurs_in n (String.concat sep p).
Proof.
  induction p as [|x p IH]; [by intros ?%elem_of_nil|].
  intros Hn. destruct p as [|y p].
  - apply list_elem_of_singleton in Hn as ->. apply occurs_in_refl.
  - change (String.concat sep (x :: y :: p))
      with (x +:+ sep +:+ String.concat sep (y :: p)).
    apply elem_of_cons in Hn as [->|Hn].
    + apply occurs_in_app_l, occurs_in_refl.
    + by apply occurs_in_app_r, occurs_in_app_r, IH.
Qed.

Lemma occurs_in_str n p : n ∈ p → occurs_in n (Path.str p).
Proof.
  intros Hn. destruct p as [|x p]; [by apply elem_of_nil in Hn|].
  by apply occurs_in_concat.
Qed.

Lemma elem_of_parent n p : n ∈ Path.parent p → n ∈ p.
Proof.
  unfold Path.parent. induction p as [|x p IH]; [done|].
  destruct p as [|y p]; [by intros ?%elem_of_nil|].
  change (removelast (x :: y :: p)) with (x :: removelast (y :: p)).
  intros [->|H]%elem_of_cons; [by left|]. right. by apply IH.
Qed.

(** A path is skipped as soon as a pattern occurs in one of its parts. *)
Lemma should_skip_part p n pattern :
  n ∈ p → pattern ∈ SKIP_PATTERNS → occurs_in pattern n → should_skip p = true.
Proof.
  intros Hn Hpat Hocc. apply should_skip_true. exists pattern. split; [done|].
  eapply occurs_in_trans; [done|]. by apply occurs_in_str.
Qed.

Lemma under_pruned_skip p : under_pruned p = true → should_skip p = true.
Proof.
  unfold under_pruned. intros (n & Hn & Hp)%existsb_exists.
  apply list_elem_of_In, elem_of_parent in Hn.
  apply bool_decide_eq_true in Hp.
  apply (should_skip_part p n n); [done|by apply pruned_dirs_skip|].
  apply occurs_in_refl.
Qed.

End Inherit.

(** X3: the pruning of the walk takes nothing from the path filter.  A
    path is skipped whenever a pattern occurs in one of its parts, so
    every file below a pruned directory would be skipped if the walk
    came to it; after the walk each file of the tree, pruned or not, is
    what the loop body makes of it. *)
Theorem pruning_within_filter :
  (∀ (p : Path) n pattern,
     n ∈ p → pattern ∈ SKIP_PATTERNS → occurs_in pattern n → should_skip p = true)
  ∧ (∀ p : Path, under_pruned p = true → should_skip p = true)
  ∧ (∀ d (p : Path),
       Fs.file_at p (w_tree (walk [] d))
       = (λ f, v_file (visit_path p f)) <$> Fs.file_at p d).
Proof.
  split_and!.
  - apply should_skip_part.
  - apply under_pruned_skip.
  - intros d p. rewrite file_at_walk. cbn [app].
    destruct (Fs.file_at p d) as [f|] eqn:Hf; [|done].
    cbn [fmap option_fmap option_map]. f_equal.
    destruct (under_pruned p) eqn:Hp; [|done].
    rewrite visit_path_unfold by (by eapply file_at_nonempty).
    by rewrite under_pruned_skip.
Qed.

Lemma pruning_within_filter_witness :
  should_skip ["packages"; "ui"; "node_modules"; "react"; "index.js"] = true
  ∧ should_skip ["docs"; "rebuild-notes.md"] = true.
Proof.
  destruct pruning_within_filter as (Hpart & Hunder & _). split.
  - by apply Hunder.
  - apply (Hpart _ "rebuild-notes.md" "build"); [|by apply (bool_decide_unpack _)|].
    + by apply (bool_decide_unpack _).
    + by apply contains_spec.
Defined.

(** X4: the walk rewrites files and does nothing else to the tree: a
    path names a file after the walk exactly when it did before, and
    leads to a directory exactly when it did before. *)
Theorem walk_keeps_shape :
  ∀ d (p : Path),
    (is_Some (Fs.file_at p (w_tree (walk [] d))) ↔ is_Some (Fs.file_at p d))
    ∧ (is_Some (Fs.get_dir p (w_tree (walk [] d))) ↔ is_Some (Fs.get_dir p d))
    ∧ map fst (files_of (w_tree (walk [] d))) = map fst (files_of d).
Proof.
  intros d p. split_and!.
  - rewrite file_at_walk. apply fmap_is_Some.
  - rewrite get_dir_walk. apply fmap_is_Some.
  - generalize (@nil string). induction d as [files dirs IH] using dir_ind'.
    intros root. rewrite walk_Dir. cbn [files_of].
    rewrite !map_app, !map_map. cbn [fst snd]. f_equal.
    induction IH as [|[n sub] dirs Hsub _ IHdirs]; [done|].
    cbn [map concat fst snd] in *. rewrite !map_app, IHdirs. f_equal.
    rewrite !map_map. cbn [fst]. destruct (pruned n); [done|].
    specialize (Hsub (root ++ [n])).
    rewrite <- !(map_map fst (cons n)). by rewrite Hsub.
Qed.

(** ** The count and the lines of the walk *)

Section Report.

Implicit Types (p q root : Path) (f : file) (d : dir) (v : visited).

Lemma updated_line_is q : is_updated_line (updated_line q).
Proof. apply startswith_app. Qed.

Lemma error_line_is_not q e : ¬ is_updated_line (error_line q e).
Proof. unfold is_updated_line, error_line. by intros ?. Qed.

Lemma replace_in_file_well_reported q handler f :
  well_reported (replace_in_file q handler f).
Proof.
  unfold replace_in_file, well_reported.
  destruct (data f) as [content|e]; [|left; split; [done|]; right; by exists q, e].
  case_bool_decide; [|left; split; [done|]; by left].
  destruct (wfail f) as [[e residue]|].
  - left. split; [done|]. right. by exists q, e.
  - right. split; [done|]. by exists q.
Qed.

Lemma visit_well_reported root n f : well_reported (visit root n f).
Proof.
  unfold visit. destruct (should_skip _); [left; split; [done|]; by left|].
  destruct (file_handlers !! _); [apply replace_in_file_well_reported|].
  left. split; [done|]. by left.
Qed.

Lemma count_lines (vs : list (Path * visited)) :
  Forall (λ pv : Path * visited, well_reported pv.2) vs →
  length (filter (λ pv : Path * visited, v_updated pv.2 = true) vs)
  = length (filter is_updated_line (concat (map (λ pv : Path * visited, v_out pv.2) vs)))
  ∧ length (concat (map (λ pv : Path * visited, v_out pv.2) vs)) ≤ length vs
  ∧ Forall (λ line, ∃ q, line = updated_line q ∨ ∃ e, line = error_line q e)
           (concat (map (λ pv : Path * visited, v_out pv.2) vs)).
Proof.
  induction 1 as [|[p v] vs Hv _ (IH1 & IH2 & IH3)]; [done|].
  cbn [map concat snd] in *. rewrite filter_cons, filter_app, !length_app.
  cbn [snd].
  destruct Hv as [[Hu [Ho|(q & e & Ho)]]|[Hu (q & Ho)]]; rewrite Ho, Hu.
  - rewrite decide_False by done. cbn [app length filter]. split_and!; [done|lia|done].
  - rewrite decide_False by done.
    rewrite filter_cons_False by apply error_line_is_not.
    cbn [app length filter list_filter]. split_and!; [done|lia|].
    constructor; [|done]. exists q. right. by exists e.
  - rewrite decide_True by done.
    rewrite filter_cons_True by apply updated_line_is.
    cbn [app length filter list_filter]. split_and!; [lia|lia|].
    constructor; [|done]. exists q. by left.
Qed.

Lemma visits_well_reported d :
  Forall (λ pv : Path * visited, well_reported pv.2) (visits d).
Proof.
  unfold visits. apply Forall_fmap, Forall_true. intros [p f].
  apply visit_well_reported.
Qed.

(** *** The lines each step of [main] adds *)

Lemma print_Ok line w u w' : print line w = (Ok u, w') → out w' = out w ++ [line].
Proof. by intros [= _ <-]. Qed.

Lemma on_fs_out {A} (op : dir → result A * dir) w r w' :
  on_fs op w = (r, w') → out w' = out w.
Proof. unfold on_fs. destruct (op (fs w)). by intros [= _ <-]. Qed.

Lemma create_env_template_out w u w' :
  create_env_template w = (Ok u, w') → out w' = out w ++ ["✓ Created .env.template"].
Proof.
  unfold create_env_template. intros ([] & w1 & H1 & H2)%bind_Ok.
  apply on_fs_out in H1. apply print_Ok in H2. by rewrite H2, H1.
Qed.

Lemma create_setup_script_out w u w' :
  create_setup_script w = (Ok u, w') → out w' = out w ++ ["✓ Created setup-project.sh"].
Proof.
  unfold create_setup_script. intros ([] & w1 & H1 & H2)%bind_Ok.
  apply on_fs_out in H1. apply print_Ok in H2. by rewrite H2, H1.
Qed.

Lemma update_config_ts_out w u w' :
  update_config_ts w = (Ok u, w') →
  out w' = out w ∨ out w' = out w ++ ["✓ Updated lib/config.ts"].
Proof.
  unfold update_config_ts.
  intros (present & w1 & [= _ <-] & H)%bind_Ok.
  destruct present; [|injection H as _ <-; by left].
  apply bind_Ok in H as (saved & w2 & [= _ <-] & H).
  destruct saved; [injection H as _ <-; by left|]. cbn [negb] in H.
  apply bind_Ok in H as ([] & w3 & H3 & H). apply bind_Ok in H as ([] & w4 & H4 & H).
  apply on_fs_out in H3, H4. apply print_Ok in H. right. by rewrite H, H4, H3.
Qed.

End Report.

(** X5: the count of the walk is the number of lines of the form
    [✓ Updated: path] that the walk prints; the walk prints at most one
    line for each file it comes to, and each line is the report of an
    update or of an error.  The number in the summary of a run that
    returns is the number of such lines the run has printed. *)
Theorem count_matches_report :
  (∀ d,
     w_count (walk [] d) = length (filter is_updated_line (w_out (walk [] d)))
     ∧ length (w_out (walk [] d)) ≤ length (w_seen (walk [] d))
     ∧ ∀ line, line ∈ w_out (walk [] d) →
               ∃ q, line = updated_line q ∨ ∃ e, line = error_line q e)
  ∧ (∀ w n w',
       main w = (Ok n, w') →
       ∃ lines,
         out w' = out w ++ lines
         ∧ n = length (filter is_updated_line lines)
         ∧ ("   Updated " +:+ Str.of_nat n +:+ " files") ∈ lines).
Proof.
  assert (∀ d,
     w_count (walk [] d) = length (filter is_updated_line (w_out (walk [] d)))
     ∧ length (w_out (walk [] d)) ≤ length (w_seen (walk [] d))
     ∧ ∀ line, line ∈ w_out (walk [] d) →
               ∃ q, line = updated_line q ∨ ∃ e, line = error_line q e) as Hwalk.
  { intros d. destruct (walk_visits d) as (-> & -> & ->).
    destruct (count_lines (visits d) (visits_well_reported d)) as (H1 & H2 & H3).
    rewrite length_map. split_and!; [done..|].
    intros line Hline. by apply (proj1 (Forall_forall _ _) H3). }
  split; [exact Hwalk|].
  intros w n w' Hmain. unfold main in Hmain.
  apply bind_Ok in Hmain as ([] & w1 & H1 & Hmain).
  apply bind_Ok in Hmain as ([] & w2 & H2 & Hmain).
  apply bind_Ok in Hmain as ([] & w3 & H3 & Hmain).
  apply bind_Ok in Hmain as ([] & w4 & H4 & Hmain).
  apply bind_Ok in Hmain as ([] & w5 & H5 & Hmain).
  apply bind_Ok in Hmain as (m & w6 & H6 & Hmain).
  apply bind_Ok in Hmain as ([] & w7 & H7 & Hmain).
  apply bind_Ok in Hmain as ([] & w8 & H8 & Hmain).
  apply bind_Ok in Hmain as ([] & w9 & H9 & Hmain).
  apply bind_Ok in Hmain as ([] & w10 & H10 & Hmain).
  apply bind_Ok in Hmain as ([] & w11 & H11 & Hmain).
  injection Hmain as <- <-.
  apply print_Ok in H1, H2, H5, H8, H9, H10, H11.
  apply create_env_template_out in H3. apply create_setup_script_out in H7.
  apply update_config_ts_out in H4.
  unfold process_files in H6. injection H6 as <- <-. cbn [out] in H7.
  destruct (Hwalk (fs w5)) as (Hcount & _ & _).
  set (cfg := if decide (out w4 = out w3) then [] else ["✓ Updated lib/config.ts"]).
  assert (out w4 = out w3 ++ cfg) as H4'.
  { unfold cfg. case_decide as E; [by rewrite app_nil_r|]. by destruct H4. }
  exists (["Making VVG template generic..."; "==============================";
           "✓ Created .env.template"] ++ cfg
          ++ [Str.nl +:+ "Processing files..."] ++ w_out (walk [] (fs w5))
          ++ ["✓ Created setup-project.sh";
              Str.nl +:+ "✅ Template conversion complete!";
              "   Updated " +:+ Str.of_nat (w_count (walk [] (fs w5))) +:+ " files";
              Str.nl +:+ "The template is now generic and can be used for any project.";
              "Users should run './setup-project.sh' to configure it for their specific project."]).
  split_and!.
  - rewrite H11, H10, H9, H8, H7, H5, H4', H3, H2, H1.
    by rewrite <- !app_assoc.
  - rewrite !filter_app, !length_app, <- Hcount.
    assert (filter is_updated_line cfg = []) as ->
      by (unfold cfg; by case_decide).
    done.
  - rewrite !elem_of_app. do 4 right. do 2 right. by left.
Qed.

(** Two sources, one of them read-only: one update is counted and
    reported, and the summary says so. *)
Lemma count_matches_report_witness :
  let d := Dir [("a.ts", writable "nda-analyzer");
                ("b.ts", File (Text "nda_analyzer") (Some ("Read-only file system", Text "nda_analyzer")))] [] in
  w_count (walk [] d) = 1
  ∧ w_out (walk [] d) = [updated_line ["a.ts"]; error_line ["b.ts"] "Read-only file system"]
  ∧ ∃ lines,
      out (main (World d [])).2 = [] ++ lines
      ∧ 1 = length (filter is_updated_line lines)
      ∧ ("   Updated " +:+ Str.of_nat 1 +:+ " files") ∈ lines.
Proof.
  intros d. destruct count_matches_report as (Hwalk & Hrun).
  destruct (Hwalk d) as (Hcount & _ & _). split_and!.
  - rewrite Hcount. by vm_compute.
  - by vm_compute.
  - apply (Hrun (World d []) 1 (main (World d [])).2). by vm_compute.
Defined.

(** ** What the walk leaves in a file it processes *)

Section Complete.

Implicit Types (p : Path) (f : file) (d : dir) (handler : list (string * string)).

Lemma should_skip_not_pruned p : should_skip p = false → under_pruned p = false.
Proof.
  intros Hs. destruct (under_pruned p) eqn:E; [|done].
  apply under_pruned_skip in E. congruence.
Qed.

(** The entries of the dispatch table. *)
Lemma file_handlers_values ext handler :
  file_handlers !! ext = Some handler →
  (ext = ".json" ∧ handler = json_replacements)
  ∨ (ext = ".md" ∧ handler = md_replacements)
  ∨ (ext ≠ ".json" ∧ ext ≠ ".md" ∧ handler = replacements).
Proof.
  unfold file_handlers. intros H%elem_of_list_to_map_2.
  repeat (apply elem_of_cons in H as [[= -> ->]|H]; [by auto|]).
  by apply elem_of_nil in H.
Qed.

Lemma handler_clean ext handler content k :
  file_handlers !! ext = Some handler → ext ≠ ".json" →
  k ∈ keys handler → Str.contains k (substitute handler content) = false.
Proof.
  intros [[-> ->]|[[-> ->]|(_ & _ & ->)]]%file_handlers_values Hext Hk; [done|..].
  - by apply md_replacements_clean.
  - by apply replacements_clean.
Qed.

(** A writable text file holds the rewritten text after the loop body,
    whether the body has written it or found nothing to change. *)
Lemma replace_in_file_result p handler content :
  v_file (replace_in_file p handler (writable content))
  = writable (substitute handler content).
Proof.
  unfold replace_in_file, writable. cbn [data wfail].
  case_bool_decide as E; [done|]. cbn [untouched v_file].
  by rewrite E.
Qed.

End Complete.

(** X6: a readable and writable file that the filter lets through and
    whose extension has an entry in the dispatch table other than the
    JSON one holds, after the walk, the text rewritten by that entry,
    and none of the keys of the entry occurs in it. *)
Theorem processed_file_clean (d : dir) (p : Path) (content : string)
    (handler : list (string * string)) :
  Fs.file_at p d = Some (writable content) →
  should_skip p = false →
  file_handlers !! Str.lower (Path.suffix p) = Some handler →
  Str.lower (Path.suffix p) ≠ ".json" →
  Fs.file_at p (w_tree (walk [] d)) = Some (writable (substitute handler content))
  ∧ ∀ k, k ∈ keys handler → ¬ occurs_in k (substitute handler content).
Proof.
  intros Hf Hskip Hext Hjson. split.
  - rewrite file_at_walk, Hf. cbn [fmap option_fmap option_map app].
    rewrite (should_skip_not_pruned p Hskip).
    rewrite visit_path_unfold by (by eapply file_at_nonempty).
    rewrite Hskip, Hext. by rewrite replace_in_file_result.
  - intros k Hk. by eapply contains_false, handler_clean.
Qed.

Lemma processed_file_clean_witness :
  let d := Dir [] [("docs", Dir [("README.md", writable "# NDA Analyzer (nda-analyzer)")] [])] in
  Fs.file_at ["docs"; "README.md"] (w_tree (walk [] d))
  = Some (writable (substitute md_replacements "# NDA Analyzer (nda-analyzer)"))
  ∧ ∀ k, k ∈ keys md_replacements →
         ¬ occurs_in k (substitute md_replacements "# NDA Analyzer (nda-analyzer)").
Proof.
  intros d.
  by apply (processed_file_clean d ["docs"; "README.md"]
              "# NDA Analyzer (nda-analyzer)" md_replacements).
Defined.

(** ** What a run leaves of the generated files *)

Section Artifacts.

Implicit Types (p q : Path) (f : file) (d : dir) (w : world).

(** A write that returns has put a writable file of the text written
    under the name. *)
Lemma write_Ok_file_at q s d d' :
  Fs.write q s d = (Ok tt, d') → Fs.file_at q d' = Some (writable s).
Proof.
  unfold Fs.write. destruct q as [|n0 q0] eqn:E; [done|].
  rewrite <- E. assert (q ≠ []) as Hq by (by rewrite E). clear E n0 q0.
  destruct (Fs.get_dir (Path.parent q) d) as [[fs0 ds0]|] eqn:Hget; [|done].
  destruct (assoc (Path.name q) ds0); [done|].
  destruct (assoc (Path.name q) fs0) as [f|] eqn:Hf.
  - destruct (wfail f) as [[msg residue]|]; [done|]. intros [= <-].
    rewrite file_at_files_at by done. unfold files_at.
    rewrite get_dir_set_dir_eq by (by rewrite Hget).
    cbn [fmap option_fmap option_map mbind option_bind]. apply assoc_set_eq.
  - intros [= <-]. rewrite file_at_files_at by done. unfold files_at.
    rewrite get_dir_set_dir_eq by (by rewrite Hget).
    cbn [fmap option_fmap option_map mbind option_bind]. by apply assoc_snoc_new.
Qed.

Lemma on_fs_Ok {A} (op : dir → result A * dir) w a w' :
  on_fs op w = (Ok a, w') → op (fs w) = (Ok a, fs w').
Proof. unfold on_fs. destruct (op (fs w)) as [r d]. by intros [= -> <-]. Qed.

Lemma print_fs line w u w' : print line w = (Ok u, w') → fs w' = fs w.
Proof. by intros [= _ <-]. Qed.

End Artifacts.

(** X7: after a run that returns, .env.template holds the environment
    template and setup-project.sh the setup script, whatever they held
    before; and when the run found a configuration module and no backup,
    lib/config.ts holds the new module, which the walk has left as
    written, and the backup holds the file that was the module. *)
Theorem run_leaves_artifacts (w : world) (n : nat) (w' : world) :
  main w = (Ok n, w') →
  Fs.file_at [".env.template"] (fs w') = Some (writable env_template)
  ∧ Fs.file_at ["setup-project.sh"] (fs w') = Some (writable setup_content)
  ∧ ∀ f,
      Fs.file_at config_path (fs w) = Some f →
      Fs.lookup backup_path (fs w) = None →
      Fs.file_at config_path (fs w') = Some (writable config_content)
      ∧ Fs.file_at backup_path (fs w') = Some f.
Proof.
  intros Hmain. unfold main in Hmain.
  apply bind_Ok in Hmain as ([] & w1 & H1 & Hmain).
  apply bind_Ok in Hmain as ([] & w2 & H2 & Hmain).
  apply bind_Ok in Hmain as ([] & w3 & H3 & Hmain).
  apply bind_Ok in Hmain as ([] & w4 & H4 & Hmain).
  apply bind_Ok in Hmain as ([] & w5 & H5 & Hmain).
  apply bind_Ok in Hmain as (m & w6 & H6 & Hmain).
  apply bind_Ok in Hmain as ([] & w7 & H7 & Hmain).
  apply bind_Ok in Hmain as ([] & w8 & H8 & Hmain).
  apply bind_Ok in Hmain as ([] & w9 & H9 & Hmain).
  apply bind_Ok in Hmain as ([] & w10 & H10 & Hmain).
  apply bind_Ok in Hmain as ([] & w11 & H11 & Hmain).
  injection Hmain as <- <-.
  apply print_fs in H1, H2, H5, H8, H9, H10, H11.
  rewrite H11, H10, H9, H8.
  unfold create_env_template in H3. apply bind_Ok in H3 as ([] & w3' & H3 & H3p).
  apply print_fs in H3p. apply on_fs_Ok in H3. rewrite <- H3p in H3.
  unfold create_setup_script in H7. apply bind_Ok in H7 as ([] & w7' & H7 & H7p).
  apply print_fs in H7p. apply on_fs_Ok in H7. rewrite <- H7p in H7.
  unfold process_files in H6. injection H6 as Hm H6.
  assert (∀ p g,
            ¬ ["setup-project.sh"] `prefix_of` p →
            Fs.file_at p (fs w5) = Some g →
            v_file (visit_path p g) = g →
            Fs.file_at p (fs w7) = Some g) as Hlate.
  { intros p g Hp Hg Hv.
    pose proof (write_frame ["setup-project.sh"] setup_content (fs w6) p Hp) as Hfr.
    rewrite H7 in Hfr. cbn [snd] in Hfr. rewrite Hfr, <- H6. cbn [fs].
    rewrite file_at_walk, Hg. cbn [fmap option_fmap option_map app].
    destruct (under_pruned p); by rewrite ?Hv. }
  split_and!.
  - apply Hlate; [by intros ?%(bool_decide_pack _)| |done].
    rewrite H5. rewrite (keeps_step _ _ _ _ _
      (keeps_update_config_ts [".env.template"]
         ltac:(by intros ?%(bool_decide_pack _))
         ltac:(by intros ?%(bool_decide_pack _))) H4).
    by apply (write_Ok_file_at _ _ _ _ H3).
  - by apply (write_Ok_file_at _ _ _ _ H7).
  - intros f Hf Hb.
    assert (Fs.lookup config_path (fs w3) = Some (inl f)) as Hf3.
    { pose proof (write_root_lookup ".env.template" env_template (fs w2)
                    config_path "lib" "config.ts" eq_refl) as Hl.
      rewrite H3 in Hl. cbn [snd] in Hl. rewrite Hl, H2, H1.
      unfold Fs.file_at in Hf. by destruct (Fs.lookup config_path (fs w)) as [[?|?]|];
        simplify_eq. }
    assert (Fs.lookup backup_path (fs w3) = None) as Hb3.
    { pose proof (write_root_lookup ".env.template" env_template (fs w2)
                    backup_path "lib" "config.ts.original" eq_refl) as Hl.
      rewrite H3 in Hl. cbn [snd] in Hl. by rewrite Hl, H2, H1. }
    destruct (update_config_ts_first w3 _ Hf3 Hb3)
      as (d' & d'' & _ & _ & Hupd & Hbk & Hcfg).
    rewrite Hupd in H4.
    assert (fs w4 = d'') as Hw4 by (by simplify_eq). rewrite Hw4 in H5.
    split.
    + apply Hlate; [by intros ?%(bool_decide_pack _)|by rewrite H5|].
      by vm_compute.
    + apply Hlate; [by intros ?%(bool_decide_pack _)| |done].
      rewrite H5. unfold Fs.file_at. by rewrite Hbk.
Qed.

(** A tree with an environment template and a configuration module of
    its own. *)
Lemma run_leaves_artifacts_witness :
  let w := World (Dir [(".env.template", writable "PORT=8080")]
                      [("lib", Dir [("config.ts", writable "export const old = 1;")] [])]) [] in
  Fs.file_at [".env.template"] (fs (main w).2) = Some (writable env_template)
  ∧ Fs.file_at ["setup-project.sh"] (fs (main w).2) = Some (writable setup_content)
  ∧ Fs.file_at config_path (fs (main w).2) = Some (writable config_content)
  ∧ Fs.file_at backup_path (fs (main w).2) = Some (writable "export const old = 1;").
Proof.
  intros w.
  assert (main w = (Ok 0, (main w).2)) as Hmain by (by vm_compute).
  destruct (run_leaves_artifacts w 0 (main w).2 Hmain) as (Henv & Hsh & Hcfg).
  destruct (Hcfg (writable "export const old = 1;") eq_refl eq_refl) as [Hc Hb].
  by split_and!.
Defined.

Section Failure.

Implicit Types (p q : Path) (d : dir) (w : world).

Lemma bind_eq_Ok {A B} (c : M A) (k : A → M B) w a w1 :
  c w = (Ok a, w1) → bind c k w = k a w1.
Proof. intros H. unfold bind. by rewrite H. Qed.

Lemma bind_eq_Raise {A B} (c : M A) (k : A → M B) w msg w1 :
  c w = (Raise msg, w1) → bind c k w = (Raise msg, w1).
Proof. intros H. unfold bind. by rewrite H. Qed.

(** A write on a name that a directory of the root bears raises and
    leaves the tree. *)
Lemma write_root_dir n s d :
  is_Some (Fs.get_dir [n] d) →
  Fs.write [n] s d = (Raise (Fs.os_error 21 "Is a directory" [n]), d).
Proof.
  destruct d as [fs0 ds0]. unfold Fs.write.
  cbn [Path.parent removelast Fs.get_dir]. change (Path.name [n]) with n.
  destruct (assoc n ds0); [done|by intros [? ?]].
Qed.

(** A call that acts in a directory leaves the directories that are
    not below it. *)
Lemma remove_files_at q d p :
  ¬ Path.parent q `prefix_of` p → files_at p (Fs.remove q d) = files_at p d.
Proof.
  intros Hp. unfold Fs.remove.
  destruct (Fs.get_dir (Path.parent q) d) as [[fs0 ds0]|]; [|done].
  by apply files_at_set_dir.
Qed.

Lemma put_files_at q e d d' p :
  ¬ Path.parent q `prefix_of` p → Fs.put q e d = Some d' → files_at p d' = files_at p d.
Proof.
  intros Hp. unfold Fs.put.
  destruct (Fs.get_dir (Path.parent q) d) as [[fs0 ds0]|]; [|done].
  intros [= <-]. by apply files_at_set_dir.
Qed.

Lemma write_files_at q s d p :
  ¬ Path.parent q `prefix_of` p → files_at p (Fs.write q s d).2 = files_at p d.
Proof.
  intros Hp. unfold Fs.write. destruct q as [|n0 q0] eqn:E; [done|].
  rewrite <- E in *. clear E n0 q0.
  destruct (Fs.get_dir (Path.parent q) d) as [[fs0 ds0]|]; [|done].
  destruct (assoc (Path.name q) ds0); [done|].
  destruct (assoc (Path.name q) fs0) as [f|]; [|by apply files_at_set_dir].
  destruct (wfail f) as [[? ?]|]; by apply files_at_set_dir.
Qed.

Lemma rename_files_at src dst d p :
  ¬ Path.parent src `prefix_of` p → ¬ Path.parent dst `prefix_of` p →
  files_at p (Fs.rename src dst d).2 = files_at p d.
Proof.
  intros H1 H2. unfold Fs.rename. destruct src as [|n0 q0] eqn:E; [done|].
  rewrite <- E in *. clear E n0 q0.
  destruct (Fs.lookup src d) as [e|]; [|done].
  assert (files_at p
            (match Fs.put dst e (Fs.remove src d) with
             | Some d' => (Ok tt, d')
             | None => (Raise (Fs.os_error2 2 "No such file or directory" src dst), d)
             end : result unit * dir).2 = files_at p d) as Hmove.
  { destruct (Fs.put dst e (Fs.remove src d)) as [d'|] eqn:Hput; [|done].
    cbn [snd]. rewrite (put_files_at dst e (Fs.remove src d) d' p) by done.
    by apply remove_files_at. }
  destruct (Fs.lookup dst d) as [[f|sub]|]; [|done|done].
  by destruct e.
Qed.

Lemma update_config_ts_files_at w p :
  ¬ ["lib"] `prefix_of` p → files_at p (fs (update_config_ts w).2) = files_at p (fs w).
Proof.
  intros Hp. unfold update_config_ts, bind, path_exists, on_fs. cbn [fs out].
  destruct (Fs.exists_ config_path (fs w)); [|done].
  destruct (Fs.exists_ _ (fs w)); [done|]. cbn [negb].
  pose proof (rename_files_at config_path (Path.with_suffix config_path ".ts.original")
                (fs w) p Hp Hp) as Hren.
  destruct (Fs.rename _ _ (fs w)) as [[[]|msg] d1]; cbn [snd fs out] in *; [|done].
  pose proof (write_files_at config_path config_content d1 p Hp) as Hwr.
  destruct (Fs.write _ _ d1) as [[[]|msg] d2]; cbn [snd fs out print] in *; congruence.
Qed.

Lemma create_env_template_get_dir w n :
  Fs.get_dir [n] (fs (create_env_template w).2) = Fs.get_dir [n] (fs w).
Proof.
  unfold create_env_template, bind, on_fs, print. destruct (fs w) as [fs0 ds0].
  destruct (write_root ".env.template" env_template fs0 ds0) as (fs1 & Hw & _).
  by destruct (Fs.write _ _ (Dir fs0 ds0)) as [[[]|msg] d1]; cbn [snd fs] in *; subst d1.
Qed.

Lemma files_at_is_Some p d : is_Some (files_at p d) ↔ is_Some (Fs.get_dir p d).
Proof. unfold files_at. by rewrite fmap_is_Some. Qed.

End Failure.

(** X8: an error of a generator is not caught and ends the run on the
    spot.  When .env.template cannot be written, or is a directory, the
    run ends after its two lines of banner: nothing is walked, and the
    tree is as it was but for what the failed write left of that file.
    When setup-project.sh is a directory and the two generators before
    the walk have returned, the run ends after the walk: the tree is the
    one the walk has left, with the files it has rewritten, and the last
    lines printed are those of the walk, without a summary. *)
Theorem generator_failure_ends_run :
  (∀ files dirs o f msg residue,
     assoc ".env.template" dirs = None →
     assoc ".env.template" files = Some f →
     wfail f = Some (msg, residue) →
     main (World (Dir files dirs) o)
     = (Raise msg,
        World (Dir (assoc_set ".env.template" (File residue (wfail f)) files) dirs)
              (o ++ ["Making VVG template generic..."]
                   ++ ["=============================="])))
  ∧ (∀ files dirs o sub,
       assoc ".env.template" dirs = Some sub →
       main (World (Dir files dirs) o)
       = (Raise "[Errno 21] Is a directory: '.env.template'",
          World (Dir files dirs)
                (o ++ ["Making VVG template generic..."]
                     ++ ["=============================="])))
  ∧ (∀ w w1 w2 sub,
       Fs.get_dir ["setup-project.sh"] (fs w) = Some sub →
       create_env_template
         (World (fs w) ((out w ++ ["Making VVG template generic..."])
                          ++ ["=============================="]))
       = (Ok tt, w1) →
       update_config_ts w1 = (Ok tt, w2) →
       main w
       = (Raise "[Errno 21] Is a directory: 'setup-project.sh'",
          World (w_tree (walk [] (fs w2)))
                ((out w2 ++ [Str.nl +:+ "Processing files..."])
                   ++ w_out (walk [] (fs w2))))).
Proof.
  split_and!.
  - intros files dirs o f msg residue Hd Hf Hw.
    unfold main, bind, print, create_env_template, bind, on_fs, Fs.write.
    cbn [fs out Path.parent Path.name removelast last Fs.get_dir Fs.set_dir].
    change (Path.name [".env.template"]) with ".env.template".
    rewrite Hd, Hf, Hw. by rewrite <- !app_assoc.
  - intros files dirs o sub Hd.
    unfold main, bind, print, create_env_template, bind, on_fs, Fs.write.
    cbn [fs out Path.parent Path.name removelast last Fs.get_dir Fs.set_dir].
    change (Path.name [".env.template"]) with ".env.template".
    rewrite Hd. by rewrite <- !app_assoc.
  - intros w w1 w2 sub Hdir Henv Hupd.
    assert (is_Some (Fs.get_dir ["setup-project.sh"] (w_tree (walk [] (fs w2)))))
      as Hdir2.
    { rewrite get_dir_walk, fmap_is_Some, <- files_at_is_Some.
      replace w2 with (update_config_ts w1).2 by (by rewrite Hupd).
      rewrite update_config_ts_files_at by (by intros [? [=]]).
      rewrite files_at_is_Some.
      replace w1 with (create_env_template
                         (World (fs w) ((out w ++ ["Making VVG template generic..."])
                                          ++ ["=============================="]))).2
        by (by rewrite Henv).
      rewrite create_env_template_get_dir. cbn [fs]. by rewrite Hdir. }
    unfold main.
    erewrite bind_eq_Ok by reflexivity.
    erewrite bind_eq_Ok by reflexivity.
    erewrite bind_eq_Ok by exact Henv.
    erewrite bind_eq_Ok by exact Hupd.
    erewrite bind_eq_Ok by reflexivity.
    erewrite bind_eq_Ok by reflexivity.
    apply bind_eq_Raise. unfold create_setup_script.
    apply bind_eq_Raise. unfold on_fs. cbn [fs out].
    by rewrite write_root_dir.
Qed.

(** A tree with a file to rewrite, where the environment template
    cannot be written, and where setup-project.sh is a directory beside
    a configuration module that the run replaces. *)
Lemma generator_failure_ends_run_witness :
  let files := [("app.ts", writable "nda-analyzer")] in
  let locked := File (Text "PORT=8080")
                     (Some ("[Errno 13] Permission denied: '.env.template'",
                            Text "PORT=8080")) in
  let d := Dir files [("setup-project.sh", Dir [] []);
                      ("lib", Dir [("config.ts", writable "export {};")] [])] in
  main (World (Dir ((".env.template", locked) :: files) []) [])
  = (Raise "[Errno 13] Permission denied: '.env.template'",
     World (Dir ((".env.template", locked) :: files) [])
           ["Making VVG template generic..."; "=============================="])
  ∧ Fs.file_at ["app.ts"] (fs (main (World d [])).2) = Some (writable "${PROJECT_NAME}")
  ∧ Fs.file_at config_path (fs (main (World d [])).2) = Some (writable config_content)
  ∧ (main (World d [])).1 = Raise "[Errno 21] Is a directory: 'setup-project.sh'".
Proof.
  intros files locked d.
  destruct generator_failure_ends_run as (Hwrite & _ & Hsetup).
  pose proof (Hsetup (World d [])
                (create_env_template
                   (World d ["Making VVG template generic...";
                             "=============================="])).2
                (update_config_ts
                   (create_env_template
                      (World d ["Making VVG template generic...";
                                "=============================="])).2).2
                (Dir [] []) eq_refl ltac:(by vm_compute) ltac:(by vm_compute)) as Hrun.
  split_and!.
  - by rewrite (Hwrite ((".env.template", locked) :: files) [] [] locked
                  "[Errno 13] Permission denied: '.env.template'" (Text "PORT=8080")).
  - rewrite Hrun. by vm_compute.
  - rewrite Hrun. by vm_compute.
  - by rewrite Hrun.
Defined.

(** ** A second walk *)

Section Again.

Implicit Types (p root : Path) (f : file) (d : dir) (handler : list (string * string)).

(** Where a pass of the map leaves no key behind, the loop body has
    nothing more to do on the file it has left: a rewritten file is free
    of keys, and a failed write fails again. *)
Lemma replace_in_file_again p handler f :
  (∀ content k, k ∈ keys handler → Str.contains k (substitute handler content) = false) →
  v_file (replace_in_file p handler (v_file (replace_in_file p handler f)))
  = v_file (replace_in_file p handler f)
  ∧ v_updated (replace_in_file p handler (v_file (replace_in_file p handler f))) = false.
Proof.
  intros Hclean.
  assert (∀ content, substitute handler (substitute handler content)
                     = substitute handler content) as Hidem.
  { intros content. apply substitute_absent. intros k Hk. by apply Hclean. }
  assert (∀ g, (∀ s, data g = Text s →
                     substitute handler s = s ∨ ∃ e, wfail g = Some (e, Text s)) →
               v_file (replace_in_file p handler g) = g
               ∧ v_updated (replace_in_file p handler g) = false) as Hidle.
  { intros [[s|e] wf] Hg; unfold replace_in_file; cbn [data wfail] in *; [|done].
    case_bool_decide as E; [|done].
    destruct (Hg s eq_refl) as [?|[e ->]]; done. }
  apply Hidle. unfold replace_in_file.
  destruct f as [[content|e] [[msg residue]|]]; cbn [data wfail].
  - case_bool_decide as E; cbn [v_file untouched data wfail].
    + intros s ->. right. by exists msg.
    + intros s [= <-]. by left.
  - case_bool_decide as E; cbn [v_file untouched data wfail].
    + intros s [= <-]. by left.
    + intros s [= <-]. by left.
  - done.
  - done.
Qed.

Lemma visit_again root n f :
  (should_skip (root ++ [n]) = false → Str.lower (Path.suffix (root ++ [n])) ≠ ".json") →
  v_file (visit root n (v_file (visit root n f))) = v_file (visit root n f)
  ∧ v_updated (visit root n (v_file (visit root n f))) = false.
Proof.
  intros Hext. unfold visit. destruct (should_skip (root ++ [n])); [done|].
  destruct (file_handlers !! _) as [handler|] eqn:Hh; [|done].
  apply replace_in_file_again. intros content k Hk.
  eapply handler_clean; [exact Hh|by apply Hext|done].
Qed.

Lemma w_count_Dir root files dirs :
  w_count (walk root (Dir files dirs))
  = length (filter (λ nf : string * file, v_updated (visit root nf.1 nf.2) = true) files)
    + sum_list (map (λ nd : string * dir,
                       if pruned nd.1 then 0 else w_count (walk (root ++ [nd.1]) nd.2))
                    dirs).
Proof.
  cbn [walk w_count]. rewrite !map_map. f_equal.
  - induction files as [|[n f] files IH]; [done|]. cbn [map].
    rewrite !filter_cons. cbn [fst snd].
    destruct (decide (v_updated (visit root n f) = true)); cbn [length]; by rewrite IH.
  - f_equal. apply map_ext. intros [n sub]. cbn [fst snd]. by destruct (pruned n).
Qed.

Lemma walk_again d : ∀ root,
  (∀ p f, (p, f) ∈ files_of d → should_skip (root ++ p) = false →
          Str.lower (Path.suffix (root ++ p)) ≠ ".json") →
  w_tree (walk root (w_tree (walk root d))) = w_tree (walk root d)
  ∧ w_count (walk root (w_tree (walk root d))) = 0.
Proof.
  induction d as [files dirs IH] using dir_ind'. intros root Hext.
  rewrite (walk_Dir root files dirs), walk_Dir, w_count_Dir, !map_map.
  cbn [fst snd].
  assert (∀ n f, (n, f) ∈ files →
                 v_file (visit root n (v_file (visit root n f))) = v_file (visit root n f)
                 ∧ v_updated (visit root n (v_file (visit root n f))) = false) as Hfiles.
  { intros n f Hin. apply visit_again. apply (Hext [n] f).
    cbn [files_of]. apply elem_of_app. left.
    apply (list_elem_of_fmap_2 (λ nf : string * file, ([nf.1], nf.2)) _ (n, f) Hin). }
  assert (∀ n sub, (n, sub) ∈ dirs → pruned n = false →
                   w_tree (walk (root ++ [n]) (w_tree (walk (root ++ [n]) sub)))
                   = w_tree (walk (root ++ [n]) sub)
                   ∧ w_count (walk (root ++ [n]) (w_tree (walk (root ++ [n]) sub))) = 0)
    as Hdirs.
  { intros n sub Hin Hp.
    apply (proj1 (Forall_forall _ _) IH (n, sub) Hin). intros p f Hpf.
    rewrite <- app_assoc. apply (Hext (n :: p) f).
    cbn [files_of]. apply elem_of_app. right.
    apply list_elem_of_In, in_concat. eexists. split.
    - apply in_map_iff. exists (n, sub). split; [done|by apply list_elem_of_In].
    - apply list_elem_of_In.
      apply (list_elem_of_fmap_2 (λ pf : Path * file, (n :: pf.1, pf.2)) _ (p, f) Hpf). }
  clear Hext IH. split.
  - f_equal.
    + apply map_ext_in. intros [n f] Hin%list_elem_of_In. cbn [fst snd].
      by rewrite (proj1 (Hfiles n f Hin)).
    + apply map_ext_in. intros [n sub] Hin%list_elem_of_In. cbn [fst snd].
      destruct (pruned n) eqn:Hp; [done|].
      by rewrite (proj1 (Hdirs n sub Hin Hp)).
  - assert (∀ a b, a = 0 → b = 0 → a + b = 0) as Hsum by lia. apply Hsum.
    + clear Hdirs Hsum. induction files as [|[n f] files IHf]; [done|].
      cbn [map]. rewrite filter_cons. cbn [fst snd].
      rewrite (proj2 (Hfiles n f ltac:(left))).
      rewrite decide_False by done. apply IHf.
      intros n' f' Hin. apply Hfiles. by right.
    + clear Hfiles Hsum. induction dirs as [|[n sub] dirs IHd]; [done|].
      cbn [map sum_list sum_list_with fst snd].
      rewrite IHd by (intros n' sub' Hin; apply Hdirs; by right).
      destruct (pruned n) eqn:Hp; [done|].
      by rewrite (proj2 (Hdirs n sub ltac:(left) Hp)).
Qed.

End Again.

(** X9: where no file that the filter lets through has the extension
    .json, a walk of the tree a walk has left changes nothing and counts
    nothing: the rewritten files hold no key of their map, and a file
    that could not be written cannot be written now. *)
Theorem second_walk_idle (d : dir) :
  (∀ (p : Path) f, (p, f) ∈ files_of d → should_skip p = false →
                   Str.lower (Path.suffix p) ≠ ".json") →
  w_tree (walk [] (w_tree (walk [] d))) = w_tree (walk [] d)
  ∧ w_count (walk [] (w_tree (walk [] d))) = 0.
Proof. intros Hext. by apply walk_again. Qed.

(** A tree of one file to rewrite and one that cannot be written. *)
Lemma second_walk_idle_witness :
  let d := Dir [("app.ts", writable "nda-analyzer")]
               [("docs", Dir [("README.md",
                               File (Text "vvg_template")
                                    (Some ("Permission denied", Text "")))] [])] in
  w_count (walk [] d) = 1
  ∧ w_tree (walk [] (w_tree (walk [] d))) = w_tree (walk [] d)
  ∧ w_count (walk [] (w_tree (walk [] d))) = 0.
Proof.
  intros d. split; [by vm_compute|].
  apply (second_walk_idle d). intros p f Hin _.
  cbn [d files_of map concat app fst snd] in Hin.
  repeat (apply elem_of_cons in Hin as [[= -> _]|Hin]; [by vm_compute|]).
  by apply elem_of_nil in Hin.
Defined.
